(** * generate-script.py: the synthetic employee CSV generator

    A shallow embedding of [examples/grep-server/generate-script.py].  The
    script opens [demo-data/large-records.csv], creates a [csv.writer] on it,
    writes a header row and then, for [i] in [range(100000)], draws a first
    name, a last name, an age, a salary and a department from the [random]
    module and writes one row.

    The Python runtime pieces the script calls are modelled alongside it:
    - [str] values are [string]s over ASCII, [int] values are [Z];
    - the [random] module is an entropy tape read through a cursor;
    - the file object and the [with] statement are a small state-and-error
      monad in which opening, writing and closing may fail with [OSError];
      the file object is buffered: bytes handed to [write] reach the disk
      later, in order, at moments the script does not control;
    - [csv.writer] is the default (excel) dialect: comma delimiter, double
      quote as quote character, minimal quoting, CR LF line terminator. *)

From Stdlib Require Import String Ascii List Bool Arith ZArith NArith Lia.
From Stdlib Require Import Decimal DecimalString.
From Stdlib Require DecimalZ.
Import ListNotations.

Local Open Scope string_scope.

(** ** Characters and strings *)

Definition LF : ascii := "010"%char.
Definition CR : ascii := "013"%char.
Definition comma : ascii := ","%char.
Definition dquote : ascii := "034"%char.
Definition dot : ascii := "."%char.
Definition space : ascii := " "%char.
Definition at_sign : ascii := "@"%char.

Definition CRLF : string := String CR (String LF EmptyString).

Definition is_digit (c : ascii) : bool :=
  let n := N_of_ascii c in ((48 <=? n) && (n <=? 57))%N.

Definition is_upper (c : ascii) : bool :=
  let n := N_of_ascii c in ((65 <=? n) && (n <=? 90))%N.

(** [str.lower] on ASCII text: [A]..[Z] move to [a]..[z], the rest stays. *)
Definition lower_char (c : ascii) : ascii :=
  if is_upper c then ascii_of_N (N_of_ascii c + 32) else c.

Fixpoint lower (s : string) : string :=
  match s with
  | EmptyString => EmptyString
  | String c s' => String (lower_char c) (lower s')
  end.

(** [str(i)] for an [int]: decimal digits, a leading minus sign when
    negative, no leading zeros. *)
Definition str_int (z : Z) : string :=
  NilEmpty.string_of_int (Z.to_int z).

(** [all p s]: every character of [s] satisfies [p]. *)
Fixpoint all (p : ascii -> bool) (s : string) : bool :=
  match s with
  | EmptyString => true
  | String c s' => p c && all p s'
  end.

(** [s.count(c)] for a one-character [c]. *)
Fixpoint count (c : ascii) (s : string) : nat :=
  match s with
  | EmptyString => 0
  | String d s' => (if Ascii.eqb d c then 1 else 0) + count c s'
  end.

(** [s.endswith(suffix)]. *)
Definition endswith (s suffix : string) : bool :=
  let n := String.length s in
  let m := String.length suffix in
  Nat.leb m n && String.eqb (substring (n - m) m s) suffix.

(** [s.split(sep)] for a one-character separator: always at least one
    piece; [cur] is the piece being read. *)
Fixpoint split_from (sep : ascii) (cur s : string) : list string :=
  match s with
  | EmptyString => [cur]
  | String c s' =>
      if Ascii.eqb c sep then cur :: split_from sep EmptyString s'
      else split_from sep (cur ++ String c EmptyString) s'
  end.

Definition split (sep : ascii) (s : string) : list string :=
  split_from sep EmptyString s.

(** The lines of a text under the universal-newline convention: a line ends
    at LF, at CR, or at the pair CR LF; the terminator is not part of the
    line, and text after the last terminator is a last line when not empty. *)
Fixpoint lines_from (cur s : string) : list string :=
  match s with
  | EmptyString =>
      match cur with EmptyString => [] | _ => [cur] end
  | String c s' =>
      if Ascii.eqb c LF then cur :: lines_from EmptyString s'
      else if Ascii.eqb c CR then
        match s' with
        | String c' s'' =>
            if Ascii.eqb c' LF then cur :: lines_from EmptyString s''
            else cur :: lines_from EmptyString s'
        | EmptyString => cur :: lines_from EmptyString s'
        end
      else lines_from (cur ++ String c EmptyString) s'
  end.

Definition splitlines (s : string) : list string :=
  lines_from EmptyString s.

(** The first [m] characters of a text, and what follows them. *)
Fixpoint take (m : nat) (s : string) : string :=
  match m, s with
  | S m', String c s' => String c (take m' s')
  | _, _ => EmptyString
  end.

Fixpoint drop (m : nat) (s : string) : string :=
  match m, s with
  | S m', String _ s' => drop m' s'
  | _, _ => s
  end.

(** ** The [csv] writer, default dialect *)

(** A cell handed to [writerow]: the script passes [str] and [int] values. *)
Inductive cell : Type :=
| CStr (s : string)
| CInt (z : Z).

(** The text of a cell before quoting: a [str] as it is, anything else
    through [str()]. *)
Definition cell_text (c : cell) : string :=
  match c with
  | CStr s => s
  | CInt z => str_int z
  end.

(** Minimal quoting: a field is quoted when it holds the delimiter, the
    quote character, or a CR or LF. *)
Definition special (c : ascii) : bool :=
  Ascii.eqb c comma || Ascii.eqb c dquote || Ascii.eqb c CR || Ascii.eqb c LF.

Fixpoint has (p : ascii -> bool) (s : string) : bool :=
  match s with
  | EmptyString => false
  | String c s' => p c || has p s'
  end.

(** Inside a quoted field the quote character is doubled. *)
Fixpoint double_quotes (s : string) : string :=
  match s with
  | EmptyString => EmptyString
  | String c s' =>
      if Ascii.eqb c dquote then String dquote (String dquote (double_quotes s'))
      else String c (double_quotes s')
  end.

Definition quoted (s : string) : string :=
  String dquote (double_quotes s ++ String dquote EmptyString).

Definition format_field (s : string) : string :=
  if has special s then quoted s else s.

(** The plain join of field texts with the delimiter. *)
Fixpoint join (sep : ascii) (fields : list string) : string :=
  match fields with
  | [] => EmptyString
  | [f] => f
  | f :: rest => f ++ String sep (join sep rest)
  end.

(** One record: the formatted fields joined by commas; a record made of a
    single empty field is written quoted; the line terminator follows. *)
Definition format_record (row : list cell) : string :=
  let texts := map cell_text row in
  match texts with
  | [EmptyString] => quoted EmptyString
  | _ => join comma (map format_field texts)
  end.

Definition format_row (row : list cell) : string :=
  format_record row ++ CRLF.

(** ** The runtime: exceptions, entropy, one file *)

Inductive exn : Type :=
| OSError      (* open, write or close failed *)
| IndexError   (* [random.choice] on an empty sequence *)
| ValueError.  (* [random.randint] on an empty range, I/O on a closed file *)

Inductive result (A : Type) : Type :=
| Ok (a : A)
| Raise (e : exn).

Arguments Ok {A} a.
Arguments Raise {A} e.

(** What the run does not control: the entropy the [random] module reads,
    which of the operating-system calls on the file succeed, and how far the
    buffer of the file object is drained.  [write_ok k] tells whether the
    [k]-th [write] call (from 0) succeeds; [flushed k] is the number of
    buffered bytes that call moves to the disk (at most what the buffer
    holds); [close_flushed] is the number of buffered bytes the closing
    flush still moves to the disk when the run has failed. *)
Record env : Type := {
  tape : nat -> N;
  open_ok : bool;
  write_ok : nat -> bool;
  flushed : nat -> nat;
  close_ok : bool;
  close_flushed : nat
}.

Inductive handle : Type := Unopened | Opened | Closed.

(** What the run changes: the position on the tape, the number of [write]
    calls made, the file on disk ([None] when absent), the bytes handed to
    [write] that wait in the buffer of the file object, the state of the file
    handle, and the rows handed to [writerow] so far (the call trace of the
    writer, kept for specification). *)
Record state : Type := {
  cursor : nat;
  writes : nat;
  disk : option string;
  pending : string;
  fh : handle;
  rows : list (list cell)
}.

Definition M (A : Type) : Type := env -> state -> result A * state.

Definition ret {A} (a : A) : M A := fun _ s => (Ok a, s).

Definition raise {A} (x : exn) : M A := fun _ s => (Raise x, s).

Definition bind {A B} (m : M A) (k : A -> M B) : M B :=
  fun e s =>
    match m e s with
    | (Ok a, s') => k a e s'
    | (Raise x, s') => (Raise x, s')
    end.

Notation "x <- m ;; k" := (bind m (fun x => k))
  (at level 61, m at next level, right associativity).
Notation "m ;; k" := (bind m (fun _ => k))
  (at level 61, right associativity).

(** *** [random] *)

(** [_randbelow(n)]: an integer in [0, n), here the next tape cell reduced
    modulo [n]; every outcome the real generator can give is given by some
    tape. *)
Definition randbelow (n : N) : M N :=
  fun e s =>
    (Ok (tape e (cursor s) mod n)%N,
     {| cursor := S (cursor s); writes := writes s; disk := disk s;
        pending := pending s; fh := fh s; rows := rows s |}).

(** [random.choice(seq)]: [seq[_randbelow(len(seq))]], [IndexError] on an
    empty sequence. *)
Definition choice {A} (seq : list A) : M A :=
  match seq with
  | [] => raise IndexError
  | _ =>
      k <- randbelow (N.of_nat (List.length seq)) ;;
      match nth_error seq (N.to_nat k) with
      | Some x => ret x
      | None => raise IndexError
      end
  end.

(** [random.randint(a, b)]: [a + _randbelow(b - a + 1)], [ValueError] on an
    empty range. *)
Definition randint (a b : Z) : M Z :=
  let width := (b - a + 1)%Z in
  if (width <=? 0)%Z then raise ValueError
  else k <- randbelow (Z.to_N width) ;; ret (a + Z.of_N k)%Z.

(** *** The file and the writer *)

(** The bytes of the file on disk, none when the file is absent. *)
Definition contents (d : option string) : string :=
  match d with
  | Some old => old
  | None => EmptyString
  end.

(** Draining the buffer: the first [m] waiting bytes go to the disk. *)
Definition drain (m : nat) (s : state) : state :=
  {| cursor := cursor s; writes := writes s;
     disk := Some (contents (disk s) ++ take m (pending s));
     pending := drop m (pending s);
     fh := fh s; rows := rows s |}.

(** [f.write(data)]: the data joins the buffer of the file object, and the
    call drains some of the buffer to the disk.  A call that fails has
    drained what it could, possibly part of its own data. *)
Definition file_write (data : string) : M unit :=
  fun e s =>
    match fh s with
    | Opened =>
        (if write_ok e (writes s) then Ok tt else Raise OSError,
         drain (flushed e (writes s))
           {| cursor := cursor s; writes := S (writes s); disk := disk s;
              pending := pending s ++ data;
              fh := Opened; rows := rows s |})
    | _ => (Raise ValueError, s)
    end.

(** [csv.writer(f)]: a fresh writer, nothing written through it yet. *)
Definition csv_writer : M unit :=
  fun _ s =>
    (Ok tt,
     {| cursor := cursor s; writes := writes s; disk := disk s;
        pending := pending s; fh := fh s; rows := [] |}).

(** [w.writerow(row)]: formats the record and hands it to [f.write] in one
    call. *)
Definition writerow (row : list cell) : M unit :=
  fun e s =>
    file_write (format_row row) e
      {| cursor := cursor s; writes := writes s; disk := disk s;
         pending := pending s; fh := fh s; rows := rows s ++ [row] |}.

(** The closing flush.  When the block ended normally and the close
    succeeds, every waiting byte reaches the disk.  Otherwise (a write has
    failed, or the close fails) only [close_flushed] of the waiting bytes do,
    and the rest is lost with the buffer. *)
Definition close_file (clean : bool) : M unit :=
  fun e s =>
    let m := if clean && close_ok e then String.length (pending s)
             else close_flushed e in
    let s' := drain m s in
    (if close_ok e then Ok tt else Raise OSError,
     {| cursor := cursor s'; writes := writes s'; disk := disk s';
        pending := EmptyString; fh := Closed; rows := rows s' |}).

(** [with open(path, "w", newline="") as f: body].  Opening for writing
    creates or truncates the file, with an empty buffer; no newline
    translation is applied, so the bytes written are the bytes of the text.
    Leaving the block, normally or by an exception, closes the file; a
    failing [close] raises [OSError], also over the exception of the body. *)
Definition with_open {A} (body : M A) : M A :=
  fun e s =>
    if open_ok e then
      let '(r, s') :=
        body e {| cursor := cursor s; writes := writes s;
                  disk := Some EmptyString; pending := EmptyString;
                  fh := Opened; rows := rows s |} in
      let clean := match r with Ok _ => true | Raise _ => false end in
      match close_file clean e s' with
      | (Ok _, s'') => (r, s'')
      | (Raise x, s'') => (Raise x, s'')
      end
    else (Raise OSError, s).

(** [for i in range(n): body i], counting from [start]. *)
Fixpoint for_from (start n : nat) (body : nat -> M unit) : M unit :=
  match n with
  | O => ret tt
  | S n' => body start ;; for_from (S start) n' body
  end.

Definition for_range (n : nat) (body : nat -> M unit) : M unit :=
  for_from 0 n body.

(** ** The script *)

Definition depts : list string :=
  ["Engineering"; "Sales"; "Marketing"; "HR"; "Product"; "Legal"; "Support"].

Definition first_names : list string :=
  ["James"; "Mary"; "Robert"; "Patricia"; "John"; "Jennifer"; "Michael"; "Linda"].

Definition last_names : list string :=
  ["Smith"; "Johnson"; "Williams"; "Brown"; "Jones"; "Garcia"; "Miller"; "Davis"].

Definition header : list cell :=
  [CStr "name"; CStr "email"; CStr "age"; CStr "salary"; CStr "department"].

(** The body of the [for] loop at index [i]. *)
Definition loop_body (i : nat) : M unit :=
  fname <- choice first_names ;;
  lname <- choice last_names ;;
  let name := fname ++ " " ++ lname in
  let email :=
    lower fname ++ "." ++ lower lname ++ str_int (Z.of_nat i) ++ "@company.com" in
  age <- randint 22 65 ;;
  salary <- randint 40000 160000 ;;
  dept <- choice depts ;;
  writerow [CStr name; CStr email; CInt age; CInt salary; CStr dept].

(** The [with] block, for a row count [n]. *)
Definition generate (n : nat) : M unit :=
  with_open (
    csv_writer ;;
    writerow header ;;
    for_range n loop_body).

(** The row count of the script. *)
Definition row_count : nat := N.to_nat 100000.

Definition script : M unit := generate row_count.

(** A run starts with the tape at its beginning, no handle, no writer, and
    whatever is on disk. *)
Definition start (d : option string) : state :=
  {| cursor := 0; writes := 0; disk := d; pending := EmptyString;
     fh := Unopened; rows := [] |}.

Definition run {A} (m : M A) (e : env) (d : option string) : result A * state :=
  m e (start d).

(** The rows after the header in the writer's trace. *)
Definition data_rows (s : state) : list (list cell) := tl (rows s).

(** Field [k] of a row. *)
Definition field (k : nat) (row : list cell) : option cell := nth_error row k.

(** ** Vocabulary of the statements *)

(** The element [random.choice] returns on tape cell [t]. *)
Definition pick {A} (d : A) (seq : list A) (t : N) : A :=
  nth (N.to_nat (t mod N.of_nat (List.length seq))) seq d.

(** The row the loop body hands to [writerow] at index [i] when the tape
    cursor is at [c]: five cells of the tape in the order of the draws. *)
Definition row_at (t : nat -> N) (c i : nat) : list cell :=
  let fname := pick EmptyString first_names (t c) in
  let lname := pick EmptyString last_names (t (1 + c)) in
  let age := (22 + Z.of_N (t (2 + c)%nat mod 44)%N)%Z in
  let salary := (40000 + Z.of_N (t (3 + c)%nat mod 120001)%N)%Z in
  let dept := pick EmptyString depts (t (4 + c)) in
  [CStr (fname ++ " " ++ lname);
   CStr (lower fname ++ "." ++ lower lname ++ str_int (Z.of_nat i) ++ "@company.com");
   CInt age; CInt salary; CStr dept].

(** The rows of [k] consecutive iterations, from index [i] and cursor [c]. *)
Fixpoint rows_from (t : nat -> N) (c i k : nat) : list (list cell) :=
  match k with
  | O => []
  | S k' => row_at t c i :: rows_from t (5 + c) (S i) k'
  end.

(** Every row of a complete run of count [n], header first. *)
Definition all_rows (t : nat -> N) (n : nat) : list (list cell) :=
  header :: rows_from t 0 0 n.

(** The bytes a sequence of [writerow] calls produces. *)
Fixpoint text (rws : list (list cell)) : string :=
  match rws with
  | [] => EmptyString
  | r :: rest => format_row r ++ text rest
  end.

(** How many of the [n] write calls numbered from [w] succeed before the
    first one that fails. *)
Fixpoint ok_prefix (ok : nat -> bool) (w n : nat) : nat :=
  match n with
  | O => O
  | S n' => if ok w then S (ok_prefix ok (S w) n') else O
  end.

(** No operating-system call of a run of count [n] fails: the open, the
    [n + 1] writes, the close. *)
Definition fault_free (e : env) (n : nat) : Prop :=
  open_ok e = true /\ (forall k, k <= n -> write_ok e k = true) /\ close_ok e = true.

(** The bound of the [k]-th [_randbelow] call of a run: the calls cycle
    through the five draws of the loop body. *)
Definition draw_bound (k : nat) : N :=
  nth (k mod 5)
      [N.of_nat (List.length first_names); N.of_nat (List.length last_names);
       Z.to_N (65 - 22 + 1); Z.to_N (160000 - 40000 + 1);
       N.of_nat (List.length depts)] 1%N.

(** The value the [k]-th [_randbelow] call of a run returns. *)
Definition draw (e : env) (k : nat) : N := (tape e k mod draw_bound k)%N.

Definition header_line : string := "name,email,age,salary,department".

(** An environment without faults, for examples: nothing reaches the disk
    before the closing flush. *)
Definition calm (t : nat -> N) : env :=
  {| tape := t; open_ok := true; write_ok := fun _ => true;
     flushed := fun _ => 0; close_ok := true; close_flushed := 0 |}.

(** The state after [k] more draws. *)
Definition advance (k : nat) (s : state) : state :=
  {| cursor := k + cursor s; writes := writes s; disk := disk s;
     pending := pending s; fh := fh s; rows := rows s |}.


(** What a sequence of [write] calls, numbered from [w], does to the pair
    of the bytes on disk and the bytes waiting: each call adds its record to
    the waiting bytes and drains as many as [fl] tells. *)
Fixpoint drained (fl : nat -> nat) (w : nat) (rws : list (list cell))
  (dp : string * string) : string * string :=
  match rws with
  | [] => dp
  | r :: rest =>
      let p := snd dp ++ format_row r in
      drained fl (S w) rest (fst dp ++ take (fl w) p, drop (fl w) p)
  end.

(** What the [for] loop of count [n], entered at index [i] in state [s] with
    [old] on disk, returns and leaves behind: the rows handed to the writer
    run up to and including the first one whose write fails. *)
Definition after_loop (e : env) (i n : nat) (s : state) (old : string)
  : result unit * state :=
  let k := ok_prefix (write_ok e) (writes s) n in
  let handed := rows_from (tape e) (cursor s) i (Nat.min (S k) n) in
  let dp := drained (flushed e) (writes s) handed (old, pending s) in
  (if Nat.eqb k n then Ok tt else Raise OSError,
   {| cursor := 5 * List.length handed + cursor s;
      writes := List.length handed + writes s;
      disk := Some (fst dp);
      pending := snd dp;
      fh := Opened;
      rows := rows s ++ handed |}).

(** What a whole run of count [n] returns and leaves behind. *)
Definition outcome (e : env) (n : nat) (d : option string)
  : result unit * state :=
  if open_ok e then
    let k := ok_prefix (write_ok e) 0 (S n) in
    let handed := firstn (S k) (all_rows (tape e) n) in
    let dp := drained (flushed e) 0 handed (EmptyString, EmptyString) in
    let m := if Nat.eqb k (S n) && close_ok e then String.length (snd dp)
             else close_flushed e in
    (if close_ok e then (if Nat.eqb k (S n) then Ok tt else Raise OSError)
     else Raise OSError,
     {| cursor := 5 * (List.length handed - 1);
        writes := List.length handed;
        disk := Some (fst dp ++ take m (snd dp));
        pending := EmptyString;
        fh := Closed;
        rows := handed |})
  else (Raise OSError, start d).

(** Character classes of the generated fields. *)
Definition is_lower (c : ascii) : bool :=
  let n := N_of_ascii c in ((97 <=? n) && (n <=? 122))%N.

Definition is_alpha (c : ascii) : bool := is_upper c || is_lower c.

Definition is_eol (c : ascii) : bool := Ascii.eqb c CR || Ascii.eqb c LF.

(** Letters, digits, and the space, dot and at sign the script puts
    between them. *)
Definition is_safe (c : ascii) : bool :=
  is_alpha c || is_digit c || Ascii.eqb c space || Ascii.eqb c dot
  || Ascii.eqb c at_sign.

(** A row whose cells hold safe characters only. *)
Definition safe_row (row : list cell) : Prop :=
  Forall (fun c => all is_safe (cell_text c) = true) row.

(** The shape of a data row at index [i]: the claims of the specification
    on a record, with the sampled values named. *)
Definition employee_row (i : nat) (row : list cell) : Prop :=
  exists fname lname age salary dept,
    In fname first_names /\ In lname last_names /\
    (22 <= age <= 65)%Z /\ (40000 <= salary <= 160000)%Z /\
    In dept depts /\
    row = [CStr (fname ++ " " ++ lname);
           CStr (lower fname ++ "." ++ lower lname
                 ++ str_int (Z.of_nat i) ++ "@company.com");
           CInt age; CInt salary; CStr dept].

(** The address the loop body composes for the names [fname], [lname] at
    index [i]. *)
Definition email_of (fname lname : string) (i : nat) : string :=
  lower fname ++ "." ++ lower lname ++ str_int (Z.of_nat i) ++ "@company.com".

Definition not_digit (c : ascii) : bool := negb (is_digit c).

(** An environment in which the third write call fails, each call drains up
    to 50 bytes and the closing flush 7 more, for examples. *)
Definition third_write_fails (t : nat -> N) : env :=
  {| tape := t; open_ok := true; write_ok := fun k => negb (Nat.eqb k 2);
     flushed := fun _ => 50; close_ok := true; close_flushed := 7 |}.

(** A tape that starts with the given cells and goes on with zeros. *)
Definition tape_of (cells : list N) : nat -> N := fun k => nth k cells 0%N.

(** [s.startswith(p)]. *)
Fixpoint startswith (s p : string) {struct p} : bool :=
  match p, s with
  | EmptyString, _ => true
  | String a p', String b s' => Ascii.eqb a b && startswith s' p'
  | String _ _, EmptyString => false
  end.

(** [s.replace(old, new)] for one-character [old] and [new]. *)
Fixpoint replace_char (old new : ascii) (s : string) : string :=
  match s with
  | EmptyString => EmptyString
  | String c s' =>
      String (if Ascii.eqb c old then new else c) (replace_char old new s')
  end.

(** Seven-bit characters: the same bytes under every ASCII-compatible
    encoding of the file. *)
Definition is_ascii (c : ascii) : bool := (N_of_ascii c <? 128)%N.

(** The characters of the file: those of the fields, the delimiter and the
    two characters of the line terminator. *)
Definition is_file_char (c : ascii) : bool :=
  is_safe c || Ascii.eqb c comma || is_eol c.
(** ** Strings: basic facts *)

Lemma append_nil_r (s : string) : s ++ "" = s.
Proof. induction s as [|c s IH]; simpl; [reflexivity | now rewrite IH]. Qed.

Lemma append_assoc (a b c : string) : (a ++ b) ++ c = a ++ b ++ c.
Proof. induction a as [|x a IH]; simpl; [reflexivity | now rewrite IH]. Qed.

Lemma length_append (a b : string) :
  String.length (a ++ b) = String.length a + String.length b.
Proof. induction a as [|x a IH]; simpl; [reflexivity | now rewrite IH]. Qed.

Lemma all_append p (a b : string) : all p (a ++ b) = all p a && all p b.
Proof.
  induction a as [|x a IH]; simpl; [reflexivity|].
  now rewrite IH, andb_assoc.
Qed.

Lemma has_append p (a b : string) : has p (a ++ b) = has p a || has p b.
Proof.
  induction a as [|x a IH]; simpl; [reflexivity|].
  now rewrite IH, orb_assoc.
Qed.

Lemma count_append c (a b : string) : count c (a ++ b) = count c a + count c b.
Proof.
  induction a as [|x a IH]; simpl; [reflexivity|].
  rewrite IH. lia.
Qed.

(** A string whose characters all avoid [q] has no character in [q]. *)
Lemma all_not_has p q (s : string) :
  (forall c, p c = true -> q c = false) -> all p s = true -> has q s = false.
Proof.
  intros Hpq. induction s as [|c s IH]; simpl; [reflexivity|].
  intros H. apply andb_true_iff in H as [Hc Hs].
  now rewrite (Hpq c Hc), IH.
Qed.

Lemma all_count_0 p c (s : string) :
  p c = false -> all p s = true -> count c s = 0.
Proof.
  intros Hc. induction s as [|d s IH]; simpl; [reflexivity|].
  intros H. apply andb_true_iff in H as [Hd Hs].
  destruct (Ascii.eqb_spec d c) as [->|_]; [congruence|].
  now rewrite IH.
Qed.

Lemma all_weaken (p q : ascii -> bool) (s : string) :
  (forall c, p c = true -> q c = true) -> all p s = true -> all q s = true.
Proof.
  intros Hpq. induction s as [|c s IH]; simpl; [reflexivity|].
  intros H. apply andb_true_iff in H as [Hc Hs].
  now rewrite (Hpq c Hc), IH.
Qed.

(** *** Decimal numerals *)

Lemma string_of_uint_digits (d : uint) : all is_digit (NilEmpty.string_of_uint d) = true.
Proof. induction d; simpl; auto. Qed.

Lemma str_int_digits (z : Z) : (0 <= z)%Z -> all is_digit (str_int z) = true.
Proof.
  intros Hz. unfold str_int.
  destruct z as [|p|p]; simpl; try apply string_of_uint_digits; lia.
Qed.

Lemma str_int_inj (a b : Z) : str_int a = str_int b -> a = b.
Proof.
  unfold str_int. intros H.
  apply DecimalZ.to_int_inj.
  assert (Some (Z.to_int a) = Some (Z.to_int b)) as E
    by (rewrite <- !NilEmpty.isi; now rewrite H).
  now injection E.
Qed.

(** ** What each step of the script does *)

Lemma choice_spec {A} (d : A) (seq : list A) (e : env) (s : state) :
  seq <> [] ->
  choice seq e s = (Ok (pick d seq (tape e (cursor s))), advance 1 s).
Proof.
  intros Hne. destruct seq as [|a seq]; [congruence|].
  unfold choice, bind, randbelow, pick.
  set (k := N.to_nat _).
  assert (k < List.length (a :: seq)) as Hk.
  { subst k. pose proof (N.mod_upper_bound (tape e (cursor s))
                           (N.of_nat (List.length (a :: seq)))) as Hb.
    simpl List.length in *. lia. }
  rewrite (nth_error_nth' _ d Hk). reflexivity.
Qed.

Lemma randint_spec (a b : Z) (e : env) (s : state) :
  (a <= b)%Z ->
  randint a b e s =
    (Ok (a + Z.of_N (tape e (cursor s) mod Z.to_N (b - a + 1)))%Z, advance 1 s).
Proof.
  intros Hab. unfold randint.
  destruct (Z.leb_spec (b - a + 1) 0) as [H|_]; [lia|].
  reflexivity.
Qed.

Lemma loop_body_spec (i : nat) (e : env) (s : state) :
  loop_body i e s = writerow (row_at (tape e) (cursor s) i) e (advance 5 s).
Proof.
  unfold loop_body.
  unfold bind at 1. rewrite (choice_spec EmptyString) by discriminate.
  unfold bind at 1. rewrite (choice_spec EmptyString) by discriminate.
  unfold bind at 1. rewrite randint_spec by lia.
  unfold bind at 1. rewrite randint_spec by lia.
  unfold bind at 1. rewrite (choice_spec EmptyString) by discriminate.
  reflexivity.
Qed.

(** ** The loop and the run *)

Lemma ok_prefix_le ok w n : ok_prefix ok w n <= n.
Proof.
  revert w. induction n as [|n IH]; intros w; simpl; [lia|].
  destruct (ok w); [specialize (IH (S w))|]; lia.
Qed.

Lemma ok_prefix_all ok w n :
  ok_prefix ok w n = n <-> (forall j, j < n -> ok (w + j) = true).
Proof.
  revert w. induction n as [|n IH]; intros w; simpl.
  - split; [intros _ j Hj; lia | reflexivity].
  - destruct (ok w) eqn:W.
    + split.
      * intros H j Hj. injection H as H.
        destruct j as [|j]; [now rewrite Nat.add_0_r|].
        replace (w + S j) with (S w + j) by lia.
        apply (proj1 (IH (S w)) H). lia.
      * intros H. f_equal. apply IH. intros j Hj.
        replace (S w + j) with (w + S j) by lia. apply H. lia.
    + split; [discriminate|].
      intros H. specialize (H 0 ltac:(lia)). rewrite Nat.add_0_r in H. congruence.
Qed.

Lemma length_rows_from t c i k : List.length (rows_from t c i k) = k.
Proof.
  revert c i. induction k as [|k IH]; intros c i; simpl; [reflexivity|].
  now rewrite IH.
Qed.

Lemma firstn_rows_from t c i k m :
  firstn m (rows_from t c i k) = rows_from t c i (Nat.min m k).
Proof.
  revert c i m. induction k as [|k IH]; intros c i m; simpl.
  - rewrite Nat.min_0_r. now destruct m.
  - destruct m as [|m]; simpl; [reflexivity|]. now rewrite IH.
Qed.

Lemma nth_error_rows_from t c i k j :
  j < k -> nth_error (rows_from t c i k) j = Some (row_at t (5 * j + c) (j + i)).
Proof.
  revert c i j. induction k as [|k IH]; intros c i j Hj; [lia|].
  destruct j as [|j]; simpl; [reflexivity|].
  rewrite IH by lia. do 2 f_equal; lia.
Qed.

Lemma take_drop (m : nat) (s : string) : take m s ++ drop m s = s.
Proof.
  revert s. induction m as [|m IH]; intros [|c s]; simpl; try reflexivity.
  now rewrite IH.
Qed.

Lemma take_length (s : string) : take (String.length s) s = s.
Proof. induction s as [|c s IH]; simpl; [reflexivity | now rewrite IH]. Qed.

(** No byte is lost or invented while the writes go on: the bytes on disk
    followed by the bytes waiting are the bytes handed over so far. *)
Lemma drained_total (fl : nat -> nat) (rws : list (list cell)) :
  forall w a b,
    fst (drained fl w rws (a, b)) ++ snd (drained fl w rws (a, b))
    = a ++ b ++ text rws.
Proof.
  induction rws as [|r rws IH]; intros w a b.
  - simpl. now rewrite append_nil_r.
  - cbn [drained fst snd text]. rewrite IH.
    rewrite (append_assoc a), <- (append_assoc (take _ _) (drop _ _)).
    now rewrite take_drop, !append_assoc.
Qed.

Lemma for_from_spec (n : nat) :
  forall i e s old,
    fh s = Opened -> disk s = Some old ->
    for_from i n loop_body e s = after_loop e i n s old.
Proof.
  induction n as [|n IH]; intros i e s old Hfh Hdisk.
  - unfold after_loop. simpl. rewrite app_nil_r.
    destruct s; simpl in *; subst; reflexivity.
  - simpl for_from. unfold bind at 1.
    rewrite loop_body_spec. unfold writerow, file_write, drain.
    cbn [fh advance cursor writes disk pending rows contents].
    rewrite Hfh, Hdisk. cbn [contents].
    unfold after_loop. cbn [ok_prefix].
    destruct (write_ok e (writes s)) eqn:W.
    + rewrite (IH _ _ _ (old ++ take (flushed e (writes s))
                                  (pending s
                                   ++ format_row (row_at (tape e) (cursor s) i))))
        by reflexivity.
      unfold after_loop. cbn [cursor writes disk pending rows fh].
      set (k := ok_prefix (write_ok e) (S (writes s)) n).
      replace (Nat.min (S (S k)) (S n)) with (S (Nat.min (S k) n)) by lia.
      cbn [rows_from drained fst snd List.length Nat.eqb].
      rewrite <- app_assoc. cbn [app].
      f_equal. f_equal; lia.
    + replace (Nat.min 1 (S n)) with 1 by lia.
      cbn [rows_from drained fst snd List.length Nat.eqb].
      f_equal.
Qed.

Theorem run_generate (n : nat) (e : env) (d : option string) :
  run (generate n) e d = outcome e n d.
Proof.
  unfold run, generate, with_open, outcome.
  destruct (open_ok e); [|reflexivity].
  unfold bind at 1. unfold csv_writer.
  cbn [cursor writes disk pending fh rows start].
  unfold bind at 1. unfold writerow, file_write, drain.
  cbn [cursor writes disk pending fh rows contents append].
  cbn [ok_prefix]. destruct (write_ok e 0) eqn:W.
  - unfold for_range.
    rewrite (for_from_spec n 0 e _
               (take (flushed e 0) (format_row header)))
      by reflexivity.
    unfold after_loop. cbn [cursor writes disk pending fh rows].
    set (k := ok_prefix (write_ok e) 1 n).
    pose proof (ok_prefix_le (write_ok e) 1 n) as Hk. fold k in Hk.
    unfold all_rows. rewrite !firstn_cons, !firstn_rows_from.
    cbn [drained fst snd append List.length app Nat.eqb].
    rewrite !length_rows_from.
    unfold close_file, drain. cbn [cursor writes disk pending fh rows contents].
    destruct (Nat.eqb k n), (close_ok e); cbn [andb];
      (f_equal; f_equal; lia).
  - unfold all_rows. rewrite firstn_cons, !firstn_0.
    cbn [drained fst snd append List.length Nat.eqb andb].
    unfold close_file, drain. cbn [cursor writes disk pending fh rows contents].
    destruct (close_ok e); reflexivity.
Qed.

(** ** Rows *)

Lemma pick_In {A} (d : A) (seq : list A) (t : N) : seq <> [] -> In (pick d seq t) seq.
Proof.
  intros Hne. unfold pick. apply nth_In.
  destruct seq as [|a seq]; [congruence|].
  pose proof (N.mod_upper_bound t (N.of_nat (List.length (a :: seq)))) as Hb.
  simpl List.length in *. lia.
Qed.

Lemma row_at_employee (t : nat -> N) (c i : nat) : employee_row i (row_at t c i).
Proof.
  unfold employee_row, row_at.
  exists (pick EmptyString first_names (t c)),
         (pick EmptyString last_names (t (1 + c))),
         (22 + Z.of_N (t (2 + c)%nat mod 44)%N)%Z,
         (40000 + Z.of_N (t (3 + c)%nat mod 120001)%N)%Z,
         (pick EmptyString depts (t (4 + c))).
  assert (t (2 + c)%nat mod 44 < 44)%N as Hage
    by (apply N.mod_upper_bound; discriminate).
  assert (t (3 + c)%nat mod 120001 < 120001)%N as Hsalary
    by (apply N.mod_upper_bound; discriminate).
  generalize dependent (t (2 + c)%nat mod 44)%N.
  generalize dependent (t (3 + c)%nat mod 120001)%N.
  intros a Ha b Hb.
  repeat split; try (apply pick_In; discriminate); lia.
Qed.

(** The data rows of a run are the rows of the tape, in order. *)
Lemma data_row_at (n : nat) (e : env) (d : option string) (i : nat) (row : list cell) :
  nth_error (data_rows (snd (run (generate n) e d))) i = Some row ->
  open_ok e = true /\ i < n /\ row = row_at (tape e) (5 * i) i.
Proof.
  rewrite run_generate. unfold outcome, data_rows.
  destruct (open_ok e).
  - cbn [snd rows]. unfold all_rows. rewrite firstn_cons. cbn [tl].
    rewrite firstn_rows_from. intros H.
    assert (i < Nat.min (ok_prefix (write_ok e) 0 (S n)) n) as Hi.
    { rewrite <- (length_rows_from (tape e) 0 0 (Nat.min _ n)).
      apply nth_error_Some. rewrite H. discriminate. }
    rewrite nth_error_rows_from in H by exact Hi.
    injection H as <-. repeat split; [lia|].
    f_equal; lia.
  - cbn. destruct i; discriminate.
Qed.

Lemma data_row_employee (n : nat) (e : env) (d : option string) (i : nat) (row : list cell) :
  nth_error (data_rows (snd (run (generate n) e d))) i = Some row ->
  employee_row i row.
Proof.
  intros H. apply data_row_at in H as (_ & _ & ->). apply row_at_employee.
Qed.

(** *** Characters of the fields *)

Lemma is_safe_not_special c : is_safe c = true -> special c = false.
Proof.
  destruct c as [[] [] [] [] [] [] [] []]; vm_compute; congruence.
Qed.

Lemma is_safe_not_eol c : is_safe c = true -> is_eol c = false.
Proof.
  destruct c as [[] [] [] [] [] [] [] []]; vm_compute; congruence.
Qed.

Lemma is_digit_safe c : is_digit c = true -> is_safe c = true.
Proof.
  destruct c as [[] [] [] [] [] [] [] []]; vm_compute; congruence.
Qed.

Lemma is_alpha_safe c : is_alpha c = true -> is_safe c = true.
Proof.
  destruct c as [[] [] [] [] [] [] [] []]; vm_compute; congruence.
Qed.

Lemma lower_char_alpha c : is_alpha c = true -> is_lower (lower_char c) = true.
Proof.
  destruct c as [[] [] [] [] [] [] [] []]; vm_compute; congruence.
Qed.

Lemma is_lower_alpha c : is_lower c = true -> is_alpha c = true.
Proof.
  unfold is_alpha. intros ->. apply orb_true_r.
Qed.

Lemma lower_alpha (s : string) : all is_alpha s = true -> all is_lower (lower s) = true.
Proof.
  induction s as [|c s IH]; simpl; [reflexivity|].
  intros H. apply andb_true_iff in H as [Hc Hs].
  now rewrite (lower_char_alpha c Hc), IH.
Qed.

(** The three tables hold letters only. *)
Lemma names_alpha :
  forall s, In s first_names \/ In s last_names \/ In s depts -> all is_alpha s = true.
Proof.
  assert (forallb (all is_alpha) (first_names ++ last_names ++ depts) = true) as H
    by reflexivity.
  rewrite forallb_forall in H. intros s Hs. apply H.
  rewrite !in_app_iff. exact Hs.
Qed.

Lemma employee_row_safe (i : nat) (row : list cell) : employee_row i row -> safe_row row.
Proof.
  intros (f & l & a & sal & dp & Hf & Hl & Ha & Hsal & Hdp & ->).
  pose proof (names_alpha f (or_introl Hf)) as Af.
  pose proof (names_alpha l (or_intror (or_introl Hl))) as Al.
  pose proof (names_alpha dp (or_intror (or_intror Hdp))) as Adp.
  assert (forall s, all is_alpha s = true -> all is_safe s = true) as Hup
    by (intros s; apply all_weaken, is_alpha_safe).
  assert (forall s, all is_alpha s = true -> all is_safe (lower s) = true) as Hlow.
  { intros s Hs. apply (all_weaken is_lower).
    - intros c Hc. now apply is_alpha_safe, is_lower_alpha.
    - now apply lower_alpha. }
  assert (forall z, (0 <= z)%Z -> all is_safe (str_int z) = true) as Hnum.
  { intros z Hz. apply (all_weaken is_digit); [apply is_digit_safe|].
    now apply str_int_digits. }
  unfold safe_row. repeat constructor; cbn [cell_text].
  - rewrite !all_append, (Hup f Af), (Hup l Al). reflexivity.
  - rewrite !all_append, (Hlow f Af), (Hlow l Al), (Hnum (Z.of_nat i)) by lia.
    reflexivity.
  - apply Hnum; lia.
  - apply Hnum; lia.
  - apply Hup, Adp.
Qed.

Lemma header_safe : safe_row header.
Proof. unfold safe_row, header. repeat constructor. Qed.

(** ** Formatting and lines *)

Lemma format_field_safe (s : string) : all is_safe s = true -> format_field s = s.
Proof.
  intros H. unfold format_field.
  now rewrite (all_not_has is_safe special s is_safe_not_special H).
Qed.

Lemma map_format_field_safe (texts : list string) :
  Forall (fun s => all is_safe s = true) texts -> map format_field texts = texts.
Proof.
  induction 1 as [|s texts Hs _ IH]; simpl; [reflexivity|].
  now rewrite (format_field_safe s Hs), IH.
Qed.

Lemma safe_row_texts (row : list cell) :
  safe_row row -> Forall (fun s => all is_safe s = true) (map cell_text row).
Proof. unfold safe_row. intros H. now apply Forall_map. Qed.

(** A safe row of two cells or more is written as the plain join of its
    cell texts: no field is quoted. *)
Lemma format_record_plain (row : list cell) :
  safe_row row -> 2 <= List.length row ->
  format_record row = join comma (map cell_text row).
Proof.
  intros Hsafe Hlen. unfold format_record.
  rewrite (map_format_field_safe _ (safe_row_texts row Hsafe)).
  destruct row as [|a [|b row]]; simpl in Hlen; try lia.
  cbn [map]. destruct (cell_text a); reflexivity.
Qed.

Lemma join_cons (sep : ascii) (f g : string) (rest : list string) :
  join sep (f :: g :: rest) = f ++ String sep (join sep (g :: rest)).
Proof. reflexivity. Qed.

Lemma count_comma_join (texts : list string) :
  Forall (fun s => all is_safe s = true) texts ->
  count comma (join comma texts) = List.length texts - 1.
Proof.
  induction 1 as [|s texts Hs Hrest IH]; [reflexivity|].
  pose proof (all_count_0 is_safe comma s eq_refl Hs) as Hc.
  destruct texts as [|g rest]; [simpl; lia|].
  rewrite join_cons, count_append, Hc. cbn [count].
  rewrite Ascii.eqb_refl, IH. simpl. lia.
Qed.

Lemma no_eol_join (texts : list string) :
  Forall (fun s => all is_safe s = true) texts ->
  has is_eol (join comma texts) = false.
Proof.
  induction 1 as [|s texts Hs Hrest IH]; [reflexivity|].
  pose proof (all_not_has is_safe is_eol s is_safe_not_eol Hs) as Hc.
  destruct texts as [|g rest]; [exact Hc|].
  rewrite join_cons, has_append, Hc. cbn [has]. now rewrite IH.
Qed.

Lemma no_dquote_join (texts : list string) :
  Forall (fun s => all is_safe s = true) texts ->
  count dquote (join comma texts) = 0.
Proof.
  induction 1 as [|s texts Hs Hrest IH]; [reflexivity|].
  pose proof (all_count_0 is_safe dquote s eq_refl Hs) as Hc.
  destruct texts as [|g rest]; [exact Hc|].
  rewrite join_cons, count_append, Hc. cbn [count]. now rewrite IH.
Qed.

(** Reading one terminated line. *)
Lemma lines_from_line (l : string) :
  forall cur rest,
    has is_eol l = false ->
    lines_from cur (l ++ CRLF ++ rest) = (cur ++ l) :: lines_from EmptyString rest.
Proof.
  induction l as [|c l IH]; intros cur rest Hl.
  - simpl. now rewrite append_nil_r.
  - simpl in Hl. apply orb_false_iff in Hl as [Hc Hl].
    unfold is_eol in Hc. apply orb_false_iff in Hc as [Hcr Hlf].
    cbn [append lines_from]. rewrite Hlf, Hcr.
    rewrite IH by exact Hl. now rewrite append_assoc.
Qed.

Lemma splitlines_text (rws : list (list cell)) :
  Forall (fun r => has is_eol (format_record r) = false) rws ->
  splitlines (text rws) = map format_record rws.
Proof.
  unfold splitlines.
  induction 1 as [|r rws Hr _ IH]; [reflexivity|].
  cbn [text map]. unfold format_row. rewrite append_assoc.
  rewrite lines_from_line by exact Hr. now rewrite IH.
Qed.

Lemma count_LF_text (rws : list (list cell)) :
  Forall (fun r => has is_eol (format_record r) = false) rws ->
  count LF (text rws) = List.length rws.
Proof.
  induction 1 as [|r rws Hr _ IH]; [reflexivity|].
  cbn [text List.length]. unfold format_row.
  rewrite !count_append, IH.
  assert (count LF (format_record r) = 0) as ->.
  { revert Hr. generalize (format_record r) as s.
    induction s as [|c s IHs]; simpl; [reflexivity|].
    intros H. apply orb_false_iff in H as [Hc Hs].
    unfold is_eol in Hc. apply orb_false_iff in Hc as [_ Hlf].
    rewrite Hlf. now apply IHs. }
  reflexivity.
Qed.

(** Every row of a run is safe and has five cells. *)
Lemma rows_from_safe (t : nat -> N) (k : nat) :
  forall c i, Forall (fun r => safe_row r /\ List.length r = 5) (rows_from t c i k).
Proof.
  induction k as [|k IH]; intros c i; simpl; constructor; [|apply IH].
  pose proof (row_at_employee t c i) as H. split.
  - now apply (employee_row_safe i).
  - destruct H as (f & l & a & sal & dp & _ & _ & _ & _ & _ & ->). reflexivity.
Qed.

Lemma all_rows_safe (t : nat -> N) (n : nat) :
  Forall (fun r => safe_row r /\ List.length r = 5) (all_rows t n).
Proof.
  unfold all_rows. constructor; [split; [apply header_safe | reflexivity]|].
  apply rows_from_safe.
Qed.

Lemma safe_row_no_eol (r : list cell) :
  safe_row r -> List.length r = 5 -> has is_eol (format_record r) = false.
Proof.
  intros Hs Hl. rewrite format_record_plain by (trivial; lia).
  apply no_eol_join, safe_row_texts, Hs.
Qed.

Lemma all_rows_no_eol (t : nat -> N) (n : nat) :
  Forall (fun r => has is_eol (format_record r) = false) (all_rows t n).
Proof.
  eapply Forall_impl; [|apply all_rows_safe].
  intros r [Hs Hl]. now apply safe_row_no_eol.
Qed.

Lemma Forall_firstn {A} (P : A -> Prop) (k : nat) (l : list A) :
  Forall P l -> Forall P (firstn k l).
Proof.
  intros H. revert k. induction H as [|a l Ha _ IH]; intros [|k]; simpl; auto.
Qed.

(** The outcome of a run without faults. *)
Lemma outcome_fault_free (e : env) (n : nat) (d : option string) :
  fault_free e n ->
  outcome e n d =
    (Ok tt,
     {| cursor := 5 * n; writes := S n;
        disk := Some (text (all_rows (tape e) n));
        pending := EmptyString;
        fh := Closed; rows := all_rows (tape e) n |}).
Proof.
  intros (Hopen & Hwrite & Hclose). unfold outcome. rewrite Hopen, Hclose.
  assert (ok_prefix (write_ok e) 0 (S n) = S n) as ->.
  { apply ok_prefix_all. intros j Hj. apply Hwrite. simpl. lia. }
  rewrite Nat.eqb_refl. cbn [andb].
  assert (List.length (all_rows (tape e) n) = S n) as Hlen
    by (unfold all_rows; simpl; now rewrite length_rows_from).
  rewrite !firstn_all2 by lia. rewrite Hlen.
  rewrite take_length, drained_total. cbn [append].
  do 2 f_equal. lia.
Qed.

(** The outcome of a run whose open succeeds: [k] writes succeed, the rows
    handed to the writer go one further when a write failed, and the file is
    closed. *)
Lemma outcome_open (e : env) (n : nat) (d : option string) :
  open_ok e = true ->
  exists k,
    k = ok_prefix (write_ok e) 0 (S n) /\
    k <= S n /\
    rows (snd (outcome e n d)) = firstn (S k) (all_rows (tape e) n) /\
    fh (snd (outcome e n d)) = Closed.
Proof.
  intros Hopen. unfold outcome. rewrite Hopen.
  exists (ok_prefix (write_ok e) 0 (S n)).
  repeat split. apply ok_prefix_le.
Qed.

Lemma outcome_closed (e : env) (n : nat) (d : option string) :
  open_ok e = false -> outcome e n d = (Raise OSError, start d).
Proof. intros H. unfold outcome. now rewrite H. Qed.

Lemma length_all_rows (t : nat -> N) (n : nat) : List.length (all_rows t n) = S n.
Proof. unfold all_rows. simpl. now rewrite length_rows_from. Qed.

(** ** The claims *)

(** C1.  A run of count [n] in which no system call fails ends normally and
    leaves a file of exactly [n + 1] lines: the header line, then one line
    per data row.  With [n = 0] the file is the header line alone; the
    script, whose count is 100000, leaves 100001 lines. *)
Theorem C1_line_count (e : env) (d : option string) (n : nat) :
  fault_free e n ->
  exists s content,
    run (generate n) e d = (Ok tt, s) /\
    disk s = Some content /\
    splitlines content = header_line :: map format_record (data_rows s) /\
    List.length (data_rows s) = n /\
    List.length (splitlines content) = n + 1 /\
    count LF content = n + 1 /\
    (n = 0 -> content = header_line ++ CRLF) /\
    (n = row_count ->
     run script e d = (Ok tt, s) /\
     N.of_nat (List.length (data_rows s)) = 100000%N /\
     N.of_nat (List.length (splitlines content)) = 100001%N).
Proof.
  intros FF.
  pose proof (run_generate n e d) as Hrun.
  rewrite (outcome_fault_free e n d FF) in Hrun.
  match type of Hrun with _ = (_, ?st) => set (s := st) in * end.
  exists s, (text (all_rows (tape e) n)).
  split; [exact Hrun|]. split; [reflexivity|].
  pose proof (splitlines_text _ (all_rows_no_eol (tape e) n)) as Hlines.
  assert (data_rows s = rows_from (tape e) 0 0 n) as Hdata by reflexivity.
  assert (List.length (splitlines (text (all_rows (tape e) n))) = n + 1) as Hlen.
  { rewrite Hlines, length_map, length_all_rows. lia. }
  rewrite Hdata, length_rows_from, Hlen.
  repeat split.
  - exact Hlines.
  - rewrite count_LF_text by apply all_rows_no_eol.
    rewrite length_all_rows. lia.
  - intros ->. reflexivity.
  - subst n. exact Hrun.
  - subst n. unfold row_count. lia.
  - subst n. unfold row_count. lia.
Qed.

Lemma C1_line_count_witness :
  fault_free (calm N.of_nat) 3 /\
  exists s content,
    run (generate 3) (calm N.of_nat) None = (Ok tt, s) /\
    disk s = Some content /\
    splitlines content = header_line :: map format_record (data_rows s) /\
    List.length (data_rows s) = 3 /\
    List.length (splitlines content) = 3 + 1 /\
    count LF content = 3 + 1 /\
    (3 = 0 -> content = header_line ++ CRLF) /\
    (3 = row_count ->
     run script (calm N.of_nat) None = (Ok tt, s) /\
     N.of_nat (List.length (data_rows s)) = 100000%N /\
     N.of_nat (List.length (splitlines content)) = 100001%N).
Proof.
  assert (fault_free (calm N.of_nat) 3) as FF by (repeat split).
  split; [exact FF|].
  exact (C1_line_count (calm N.of_nat) None 3 FF).
Defined.

Lemma rows_from_employee (t : nat -> N) (k : nat) :
  forall c i row, In row (rows_from t c i k) -> exists j, employee_row j row.
Proof.
  induction k as [|k IH]; intros c i row; simpl; [tauto|].
  intros [<- | H]; [exists i; apply row_at_employee | eapply IH, H].
Qed.

(** The line of a data row, field by field. *)
Lemma employee_record (i : nat) (row : list cell) :
  employee_row i row ->
  exists fname lname age salary dept,
    In fname first_names /\ In lname last_names /\ In dept depts /\
    (22 <= age <= 65)%Z /\ (40000 <= salary <= 160000)%Z /\
    row = [CStr (fname ++ " " ++ lname);
           CStr (lower fname ++ "." ++ lower lname
                 ++ str_int (Z.of_nat i) ++ "@company.com");
           CInt age; CInt salary; CStr dept] /\
    format_record row =
      (fname ++ " " ++ lname) ++ ","
      ++ (lower fname ++ "." ++ lower lname
          ++ str_int (Z.of_nat i) ++ "@company.com") ++ ","
      ++ str_int age ++ "," ++ str_int salary ++ "," ++ dept.
Proof.
  intros H. pose proof (employee_row_safe i row H) as Hsafe.
  destruct H as (f & l & a & sal & dp & Hf & Hl & Ha & Hsal & Hdp & ->).
  exists f, l, a, sal, dp. repeat split; try tauto; try lia.
  rewrite format_record_plain by (trivial; simpl; lia).
  reflexivity.
Qed.

Lemma employee_record_at_sign (i : nat) (row : list cell) :
  employee_row i row -> 1 <= count at_sign (format_record row).
Proof.
  intros H. apply employee_record in H
    as (f & l & a & sal & dp & _ & _ & _ & _ & _ & _ & ->).
  rewrite !count_append.
  change (count at_sign "@company.com") with 1. lia.
Qed.

(** C2.  When the file opens and the first write call succeeds, the header
    is the first row handed to the writer and is handed over once: no data
    row is the header, and no data record is the header line.  Its record is
    byte for byte [name,email,age,salary,department].  Every data row is
    written with its fields in the order name, email, age, salary,
    department.  When no system call fails, the file starts with the header
    record and no later line of the file is the header line again. *)
Theorem C2_header_once_and_field_order
  (e : env) (d : option string) (n : nat) (r : result unit) (s : state) :
  run (generate n) e d = (r, s) ->
  open_ok e = true -> write_ok e 0 = true ->
  format_record header = header_line /\
  rows s = header :: data_rows s /\
  ~ In header (data_rows s) /\
  (forall row, In row (data_rows s) -> format_record row <> header_line) /\
  (fault_free e n ->
   exists content rest lines,
     disk s = Some content /\
     content = header_line ++ CRLF ++ rest /\
     splitlines content = header_line :: lines /\
     ~ In header_line lines) /\
  (forall i row,
     nth_error (data_rows s) i = Some row ->
     exists fname lname age salary dept,
       In fname first_names /\ In lname last_names /\ In dept depts /\
       (22 <= age <= 65)%Z /\ (40000 <= salary <= 160000)%Z /\
       row = [CStr (fname ++ " " ++ lname);
              CStr (lower fname ++ "." ++ lower lname
                    ++ str_int (Z.of_nat i) ++ "@company.com");
              CInt age; CInt salary; CStr dept] /\
       format_record row =
         (fname ++ " " ++ lname) ++ ","
         ++ (lower fname ++ "." ++ lower lname
             ++ str_int (Z.of_nat i) ++ "@company.com") ++ ","
         ++ str_int age ++ "," ++ str_int salary ++ "," ++ dept).
Proof.
  intros Hrun Hopen Hw0.
  assert (s = snd (run (generate n) e d)) as Hs by now rewrite Hrun.
  split; [reflexivity|].
  destruct (outcome_open e n d Hopen) as (k & Hk & Hle & Hrows & _).
  rewrite <- run_generate, <- Hs in Hrows.
  cbn [ok_prefix] in Hk. rewrite Hw0 in Hk.
  set (k' := ok_prefix (write_ok e) 1 n) in Hk. subst k.
  unfold all_rows in Hrows. rewrite firstn_cons in Hrows.
  assert (data_rows s = firstn (S k') (rows_from (tape e) 0 0 n)) as Hdata
    by (unfold data_rows; now rewrite Hrows).
  assert (forall row, In row (data_rows s) -> exists j, employee_row j row)
    as Hemp.
  { intros row Hin. rewrite Hdata, firstn_rows_from in Hin.
    now apply rows_from_employee in Hin. }
  split; [now rewrite Hdata|]. split; [|split; [|split]].
  - intros Hin. apply Hemp in Hin
      as (j & f & l & a & sal & dp & _ & _ & _ & _ & _ & Heq).
    discriminate Heq.
  - intros row Hin Hrec. apply Hemp in Hin as (j & Hj).
    apply employee_record_at_sign in Hj.
    rewrite Hrec in Hj. vm_compute in Hj. lia.
  - intros FF. rewrite Hs, run_generate, outcome_fault_free by exact FF.
    cbn [snd disk]. unfold all_rows.
    exists (text (header :: rows_from (tape e) 0 0 n)),
           (text (rows_from (tape e) 0 0 n)),
           (map format_record (rows_from (tape e) 0 0 n)).
    split; [reflexivity|]. split; [reflexivity|]. split.
    + rewrite splitlines_text; [reflexivity|].
      apply (all_rows_no_eol (tape e) n).
    + intros Hin. apply in_map_iff in Hin as (row & Hrec & Hin).
      apply rows_from_employee in Hin as (j & Hj).
      apply employee_record_at_sign in Hj.
      rewrite Hrec in Hj. vm_compute in Hj. lia.
  - intros i row Hnth. rewrite Hs in Hnth.
    apply data_row_employee in Hnth. now apply employee_record.
Qed.

Lemma C2_header_once_and_field_order_witness :
  format_record header = header_line /\
  rows (snd (run (generate 3) (calm N.of_nat) None))
  = header :: data_rows (snd (run (generate 3) (calm N.of_nat) None)).
Proof.
  destruct (run (generate 3) (calm N.of_nat) None) as [r s] eqn:E.
  pose proof (C2_header_once_and_field_order (calm N.of_nat) None 3 r s
                E eq_refl eq_refl) as H.
  split; [exact (proj1 H) | exact (proj1 (proj2 H))].
Defined.

(** ** Splitting and suffixes *)

Lemma count_cons_0 (sep c : ascii) (s : string) :
  count sep (String c s) = 0 -> Ascii.eqb c sep = false /\ count sep s = 0.
Proof.
  simpl. destruct (Ascii.eqb c sep); [discriminate | auto].
Qed.

Lemma split_from_plain (sep : ascii) (a : string) :
  forall cur, count sep a = 0 -> split_from sep cur a = [cur ++ a].
Proof.
  induction a as [|c a IH]; intros cur H; simpl.
  - now rewrite append_nil_r.
  - apply count_cons_0 in H as [Hc Ha]. rewrite Hc, IH by exact Ha.
    now rewrite append_assoc.
Qed.

Lemma split_from_sep (sep : ascii) (a b : string) :
  forall cur,
    count sep a = 0 ->
    split_from sep cur (a ++ String sep b)
    = (cur ++ a) :: split_from sep EmptyString b.
Proof.
  induction a as [|c a IH]; intros cur H; simpl.
  - now rewrite Ascii.eqb_refl, append_nil_r.
  - apply count_cons_0 in H as [Hc Ha]. rewrite Hc, IH by exact Ha.
    now rewrite append_assoc.
Qed.

(** Exactly one separator: two pieces. *)
Lemma split_two (sep : ascii) (a b : string) :
  count sep a = 0 -> count sep b = 0 ->
  split sep (a ++ String sep b) = [a; b].
Proof.
  intros Ha Hb. unfold split.
  rewrite split_from_sep by exact Ha.
  now rewrite split_from_plain by exact Hb.
Qed.

Lemma substring_all (b : string) : substring 0 (String.length b) b = b.
Proof. induction b as [|c b IH]; simpl; [reflexivity | now rewrite IH]. Qed.

Lemma substring_append (a b : string) :
  substring (String.length a) (String.length b) (a ++ b) = b.
Proof.
  induction a as [|c a IH]; simpl; [apply substring_all | exact IH].
Qed.

Lemma endswith_append (a b : string) : endswith (a ++ b) b = true.
Proof.
  unfold endswith. rewrite length_append.
  replace (String.length a + String.length b - String.length b)
    with (String.length a) by lia.
  rewrite substring_append, String.eqb_refl.
  apply andb_true_iff. split; [apply Nat.leb_le; lia | reflexivity].
Qed.

Lemma is_lower_not_digit c : is_lower c = true -> is_digit c = false.
Proof.
  destruct c as [[] [] [] [] [] [] [] []]; vm_compute; congruence.
Qed.

(** The address, with the part before the at sign grouped. *)
Lemma email_local (a b c d : string) :
  a ++ "." ++ b ++ c ++ d = (a ++ "." ++ b ++ c) ++ d.
Proof. now rewrite !append_assoc. Qed.

(** Lower-cased names of the tables are made of lower-case letters. *)
Lemma lower_names (s : string) :
  In s first_names \/ In s last_names -> all is_lower (lower s) = true.
Proof.
  intros H. apply lower_alpha, names_alpha. tauto.
Qed.

(** C3.  The email of the data row at index [i] is the lower-cased first
    name, a dot, the lower-cased last name, the decimal numeral of [i] and
    [@company.com].  It ends with the numeral of [i] followed by
    [@company.com], and exactly one dot separates the two lower-cased name
    segments: the part before the at sign holds one dot, between them (the
    only other dot of the address is the one of the fixed domain). *)
Theorem C3_email_format
  (e : env) (d : option string) (n i : nat) (row : list cell) :
  nth_error (data_rows (snd (run (generate n) e d))) i = Some row ->
  exists fname lname email local,
    In fname first_names /\ In lname last_names /\
    field 0 row = Some (CStr (fname ++ " " ++ lname)) /\
    field 1 row = Some (CStr email) /\
    email = lower fname ++ "." ++ lower lname
            ++ str_int (Z.of_nat i) ++ "@company.com" /\
    endswith email (str_int (Z.of_nat i) ++ "@company.com") = true /\
    split at_sign email = [local; "company.com"] /\
    local = lower fname ++ "." ++ lower lname ++ str_int (Z.of_nat i) /\
    count dot local = 1 /\
    split dot local = [lower fname; lower lname ++ str_int (Z.of_nat i)] /\
    all is_lower (lower fname) = true /\
    all is_lower (lower lname) = true /\
    all is_digit (str_int (Z.of_nat i)) = true /\
    count dot email = 2.
Proof.
  intros H. apply data_row_employee in H.
  destruct H as (f & l & a & sal & dp & Hf & Hl & _ & _ & _ & ->).
  pose proof (lower_names f (or_introl Hf)) as Lf.
  pose proof (lower_names l (or_intror Hl)) as Ll.
  pose proof (str_int_digits (Z.of_nat i) (Nat2Z.is_nonneg i)) as Di.
  set (num := str_int (Z.of_nat i)) in *.
  assert (forall c, is_lower c = false -> is_digit c = false ->
                    count c (lower f) = 0 /\ count c (lower l) = 0
                    /\ count c num = 0) as Hcount.
  { intros c Hc1 Hc2. repeat split.
    - now apply (all_count_0 is_lower).
    - now apply (all_count_0 is_lower).
    - now apply (all_count_0 is_digit). }
  destruct (Hcount dot eq_refl eq_refl) as (Df & Dl & Dn).
  destruct (Hcount at_sign eq_refl eq_refl) as (Af & Al & An).
  exists f, l,
    (lower f ++ "." ++ lower l ++ num ++ "@company.com"),
    (lower f ++ "." ++ lower l ++ num).
  repeat split; try assumption.
  - replace (lower f ++ "." ++ lower l ++ num ++ "@company.com")
      with ((lower f ++ "." ++ lower l) ++ num ++ "@company.com")
      by now rewrite !append_assoc.
    apply endswith_append.
  - rewrite email_local.
    change "@company.com" with (String at_sign "company.com").
    apply split_two; [|reflexivity].
    rewrite !count_append. cbn [count]. rewrite Af, Al, An. reflexivity.
  - rewrite !count_append. cbn [count append]. rewrite Df, Dl, Dn. reflexivity.
  - change ("." ++ lower l ++ num) with (String dot (lower l ++ num)).
    apply split_two; [exact Df|].
    rewrite count_append, Dl, Dn. reflexivity.
  - rewrite !count_append. cbn [count append]. rewrite Df, Dl, Dn. reflexivity.
Qed.

Lemma C3_email_format_witness :
  exists fname lname email local,
    In fname first_names /\ In lname last_names /\
    field 0 [CStr "Robert Brown"; CStr "robert.brown2@company.com";
             CInt 34; CInt 40013; CStr "Engineering"]
    = Some (CStr (fname ++ " " ++ lname)) /\
    field 1 [CStr "Robert Brown"; CStr "robert.brown2@company.com";
             CInt 34; CInt 40013; CStr "Engineering"]
    = Some (CStr email) /\
    email = lower fname ++ "." ++ lower lname
            ++ str_int (Z.of_nat 2) ++ "@company.com" /\
    endswith email (str_int (Z.of_nat 2) ++ "@company.com") = true /\
    split at_sign email = [local; "company.com"] /\
    local = lower fname ++ "." ++ lower lname ++ str_int (Z.of_nat 2) /\
    count dot local = 1 /\
    split dot local = [lower fname; lower lname ++ str_int (Z.of_nat 2)] /\
    all is_lower (lower fname) = true /\
    all is_lower (lower lname) = true /\
    all is_digit (str_int (Z.of_nat 2)) = true /\
    count dot email = 2.
Proof.
  apply (C3_email_format (calm N.of_nat) None 3 2).
  vm_compute. reflexivity.
Defined.

(** ** Distinct addresses *)

Lemma append_inv_tail (s : string) :
  forall a b, a ++ s = b ++ s -> a = b.
Proof.
  induction a as [|c a IH]; intros [|c' b] H; simpl in H.
  - reflexivity.
  - apply (f_equal String.length) in H. simpl in H.
    rewrite length_append in H. lia.
  - apply (f_equal String.length) in H. simpl in H.
    rewrite length_append in H. lia.
  - injection H as -> H. f_equal. now apply IH.
Qed.

(** A text without digits followed by a numeral splits in one way only. *)
Lemma digits_suffix_unique (a : string) :
  forall b x y,
    all not_digit a = true -> all not_digit b = true ->
    all is_digit x = true -> all is_digit y = true ->
    a ++ x = b ++ y -> x = y.
Proof.
  induction a as [|c a IH]; intros [|c' b] x y Ha Hb Hx Hy H; simpl in *.
  - exact H.
  - subst x. simpl in Hx. unfold not_digit in Hb.
    destruct (is_digit c'); discriminate.
  - subst y. simpl in Hy. unfold not_digit in Ha.
    destruct (is_digit c); discriminate.
  - injection H as -> H.
    apply andb_true_iff in Ha as [_ Ha]. apply andb_true_iff in Hb as [_ Hb].
    now apply (IH b).
Qed.

Lemma lower_names_no_digit (s : string) :
  In s first_names \/ In s last_names -> all not_digit (lower s) = true.
Proof.
  intros H. apply (all_weaken is_lower); [|now apply lower_names].
  intros c Hc. unfold not_digit. now rewrite (is_lower_not_digit c Hc).
Qed.

(** Whatever the names, two addresses with different indices differ. *)
Lemma email_of_index_inj (f l f' l' : string) (i j : nat) :
  In f first_names -> In l last_names ->
  In f' first_names -> In l' last_names ->
  email_of f l i = email_of f' l' j -> i = j.
Proof.
  intros Hf Hl Hf' Hl' H. unfold email_of in H.
  rewrite (email_local (lower f)), (email_local (lower f')) in H.
  apply append_inv_tail in H.
  replace (lower f ++ "." ++ lower l ++ str_int (Z.of_nat i))
    with ((lower f ++ "." ++ lower l) ++ str_int (Z.of_nat i)) in H
    by now rewrite !append_assoc.
  replace (lower f' ++ "." ++ lower l' ++ str_int (Z.of_nat j))
    with ((lower f' ++ "." ++ lower l') ++ str_int (Z.of_nat j)) in H
    by now rewrite !append_assoc.
  apply digits_suffix_unique in H.
  - apply str_int_inj in H. lia.
  - rewrite !all_append, !lower_names_no_digit by tauto. reflexivity.
  - rewrite !all_append, !lower_names_no_digit by tauto. reflexivity.
  - apply str_int_digits. lia.
  - apply str_int_digits. lia.
Qed.

Lemma employee_row_email (i : nat) (row : list cell) :
  employee_row i row ->
  exists f l, In f first_names /\ In l last_names
              /\ field 1 row = Some (CStr (email_of f l i)).
Proof.
  intros (f & l & a & sal & dp & Hf & Hl & _ & _ & _ & ->).
  exists f, l. repeat split; assumption.
Qed.

(** C4.  In one run, the emails of two data rows at different indices
    differ, whichever names were drawn: for names of the tables, the address
    determines the index, because the lower-cased names hold no digit and the
    index is written after them. *)
Theorem C4_emails_distinct
  (e : env) (d : option string) (n i j : nat) (ri rj : list cell) :
  nth_error (data_rows (snd (run (generate n) e d))) i = Some ri ->
  nth_error (data_rows (snd (run (generate n) e d))) j = Some rj ->
  i <> j ->
  field 1 ri <> field 1 rj /\
  (exists fi li fj lj,
     field 1 ri = Some (CStr (email_of fi li i)) /\
     field 1 rj = Some (CStr (email_of fj lj j))) /\
  (forall f l f' l',
     In f first_names -> In l last_names ->
     In f' first_names -> In l' last_names ->
     email_of f l i <> email_of f' l' j).
Proof.
  intros Hi Hj Hne.
  apply data_row_employee, employee_row_email in Hi as (fi & li & Hfi & Hli & Ei).
  apply data_row_employee, employee_row_email in Hj as (fj & lj & Hfj & Hlj & Ej).
  split; [|split].
  - rewrite Ei, Ej. intros H. injection H as H.
    apply Hne. now apply (email_of_index_inj fi li fj lj).
  - now exists fi, li, fj, lj.
  - intros f l f' l' Hf Hl Hf' Hl' H.
    apply Hne. now apply (email_of_index_inj f l f' l').
Qed.

Lemma C4_emails_distinct_witness :
  field 1 [CStr "James Johnson"; CStr "james.johnson0@company.com";
           CInt 24; CInt 40003; CStr "Product"]
  <> field 1 [CStr "Robert Brown"; CStr "robert.brown2@company.com";
              CInt 34; CInt 40013; CStr "Engineering"].
Proof.
  refine (proj1 (C4_emails_distinct (calm N.of_nat) None 3 0 2 _ _ _ _ _)).
  - vm_compute. reflexivity.
  - vm_compute. reflexivity.
  - discriminate.
Defined.

(** ** Values that can be drawn *)

(** The single data row of a run of count 1 without faults. *)
Lemma first_row (t : nat -> N) :
  nth_error (data_rows (snd (run (generate 1) (calm t) None))) 0
  = Some (row_at t 0 0).
Proof.
  rewrite run_generate, outcome_fault_free by (repeat split).
  reflexivity.
Qed.

Lemma pick_index {A} (d : A) (seq : list A) (k : nat) :
  k < List.length seq -> pick d seq (N.of_nat k) = nth k seq d.
Proof.
  intros Hk. unfold pick.
  rewrite N.mod_small by lia. now rewrite Nat2N.id.
Qed.

(** C5.  In every data row the age is an integer between 22 and 65 and the
    salary an integer between 40000 and 160000, bounds included; every
    value of the two ranges, the bounds among them, is drawn on some tape. *)
Theorem C5_age_salary_ranges :
  (forall (e : env) (d : option string) (n i : nat) (row : list cell),
      nth_error (data_rows (snd (run (generate n) e d))) i = Some row ->
      exists age salary,
        field 2 row = Some (CInt age) /\ field 3 row = Some (CInt salary) /\
        (22 <= age <= 65)%Z /\ (40000 <= salary <= 160000)%Z) /\
  (forall age salary : Z,
      (22 <= age <= 65)%Z -> (40000 <= salary <= 160000)%Z ->
      exists (e : env) (row : list cell),
        nth_error (data_rows (snd (run (generate 1) e None))) 0 = Some row /\
        field 2 row = Some (CInt age) /\ field 3 row = Some (CInt salary)).
Proof.
  split.
  - intros e d n i row H. apply data_row_employee in H.
    destruct H as (f & l & a & sal & dp & _ & _ & Ha & Hsal & _ & ->).
    exists a, sal. repeat split; lia.
  - intros age salary Hage Hsalary.
    set (t := tape_of [0; 0; Z.to_N (age - 22); Z.to_N (salary - 40000); 0]%N).
    exists (calm t), (row_at t 0 0).
    split; [apply first_row|].
    unfold row_at, field. cbn [nth_error].
    change (t (2 + 0)) with (Z.to_N (age - 22)).
    change (t (3 + 0)) with (Z.to_N (salary - 40000)).
    rewrite !N.mod_small by lia.
    split; do 2 f_equal; lia.
Qed.

Lemma C5_age_salary_ranges_witness :
  (exists age salary,
      field 2 [CStr "Robert Brown"; CStr "robert.brown2@company.com";
               CInt 34; CInt 40013; CStr "Engineering"] = Some (CInt age) /\
      field 3 [CStr "Robert Brown"; CStr "robert.brown2@company.com";
               CInt 34; CInt 40013; CStr "Engineering"] = Some (CInt salary) /\
      (22 <= age <= 65)%Z /\ (40000 <= salary <= 160000)%Z) /\
  (exists (e : env) (row : list cell),
      nth_error (data_rows (snd (run (generate 1) e None))) 0 = Some row /\
      field 2 row = Some (CInt 22) /\ field 3 row = Some (CInt 160000)) /\
  (exists (e : env) (row : list cell),
      nth_error (data_rows (snd (run (generate 1) e None))) 0 = Some row /\
      field 2 row = Some (CInt 65) /\ field 3 row = Some (CInt 40000)).
Proof.
  split; [|split].
  - apply (proj1 C5_age_salary_ranges (calm N.of_nat) None 3 2).
    vm_compute. reflexivity.
  - apply (proj2 C5_age_salary_ranges 22%Z 160000%Z); lia.
  - apply (proj2 C5_age_salary_ranges 65%Z 40000%Z); lia.
Defined.

Lemma names_no_space (s : string) :
  In s first_names \/ In s last_names -> count space s = 0.
Proof.
  intros H. apply (all_count_0 is_alpha); [reflexivity|].
  apply names_alpha. tauto.
Qed.

(** C6.  The three tables hold 8, 8 and 7 different entries.  In every data
    row the name is a first name of the table, a space and a last name of
    the table, so that splitting it at the space gives back the two, and the
    department is one of the seven labels.  The draws do not constrain each
    other: every first name, last name and department come together on some
    tape, and two rows of one run can carry the same name. *)
Theorem C6_name_and_department :
  (List.length first_names = 8 /\ NoDup first_names /\
   List.length last_names = 8 /\ NoDup last_names /\
   depts = ["Engineering"; "Sales"; "Marketing"; "HR"; "Product"; "Legal";
            "Support"] /\ NoDup depts) /\
  (forall (e : env) (d : option string) (n i : nat) (row : list cell),
      nth_error (data_rows (snd (run (generate n) e d))) i = Some row ->
      exists fname lname dept,
        In fname first_names /\ In lname last_names /\ In dept depts /\
        field 0 row = Some (CStr (fname ++ " " ++ lname)) /\
        split space (fname ++ " " ++ lname) = [fname; lname] /\
        field 4 row = Some (CStr dept)) /\
  (forall fname lname dept : string,
      In fname first_names -> In lname last_names -> In dept depts ->
      exists (e : env) (row : list cell),
        nth_error (data_rows (snd (run (generate 1) e None))) 0 = Some row /\
        field 0 row = Some (CStr (fname ++ " " ++ lname)) /\
        field 4 row = Some (CStr dept)) /\
  (exists (e : env) (r0 r1 : list cell),
      nth_error (data_rows (snd (run (generate 2) e None))) 0 = Some r0 /\
      nth_error (data_rows (snd (run (generate 2) e None))) 1 = Some r1 /\
      field 0 r0 = field 0 r1).
Proof.
  split; [|split; [|split]].
  - repeat split; try reflexivity;
      repeat (constructor; [simpl; intuition discriminate|]); constructor.
  - intros e d n i row H. apply data_row_employee in H.
    destruct H as (f & l & a & sal & dp & Hf & Hl & _ & _ & Hdp & ->).
    exists f, l, dp. repeat split; try assumption.
    change (" " ++ l) with (String space l).
    apply split_two; apply names_no_space; tauto.
  - intros f l dp Hf Hl Hdp.
    destruct (In_nth _ _ EmptyString Hf) as (kf & Hkf & <-).
    destruct (In_nth _ _ EmptyString Hl) as (kl & Hkl & <-).
    destruct (In_nth _ _ EmptyString Hdp) as (kd & Hkd & <-).
    set (t := tape_of [N.of_nat kf; N.of_nat kl; 0; 0; N.of_nat kd]%N).
    exists (calm t), (row_at t 0 0).
    split; [apply first_row|].
    unfold row_at, field. cbn [nth_error].
    change (t 0) with (N.of_nat kf). change (t (1 + 0)) with (N.of_nat kl).
    change (t (4 + 0)) with (N.of_nat kd).
    rewrite !pick_index by assumption. split; reflexivity.
  - exists (calm (fun _ => 0%N)),
           (row_at (fun _ => 0%N) 0 0), (row_at (fun _ => 0%N) 5 1).
    split; [|split]; vm_compute; reflexivity.
Qed.

Lemma C6_name_and_department_witness :
  (exists fname lname dept,
      In fname first_names /\ In lname last_names /\ In dept depts /\
      field 0 [CStr "Robert Brown"; CStr "robert.brown2@company.com";
               CInt 34; CInt 40013; CStr "Engineering"]
      = Some (CStr (fname ++ " " ++ lname)) /\
      split space (fname ++ " " ++ lname) = [fname; lname] /\
      field 4 [CStr "Robert Brown"; CStr "robert.brown2@company.com";
               CInt 34; CInt 40013; CStr "Engineering"]
      = Some (CStr dept)) /\
  (exists (e : env) (row : list cell),
      nth_error (data_rows (snd (run (generate 1) e None))) 0 = Some row /\
      field 0 row = Some (CStr ("Linda" ++ " " ++ "Smith")) /\
      field 4 row = Some (CStr "HR")).
Proof.
  split.
  - apply (proj1 (proj2 C6_name_and_department) (calm N.of_nat) None 3 2).
    vm_compute. reflexivity.
  - apply (proj1 (proj2 (proj2 C6_name_and_department)) "Linda" "Smith" "HR");
      simpl; tauto.
Defined.

(** ** Rows of a run and records on disk *)

Lemma In_firstn {A} (k : nat) (l : list A) (x : A) : In x (firstn k l) -> In x l.
Proof.
  intros H. rewrite <- (firstn_skipn k l). apply in_or_app. now left.
Qed.

(** Every row handed to the writer is a row of the complete run. *)
Lemma rows_in_all (e : env) (d : option string) (n : nat) (row : list cell) :
  In row (rows (snd (run (generate n) e d))) -> In row (all_rows (tape e) n).
Proof.
  rewrite run_generate. unfold outcome.
  destruct (open_ok e); cbn [snd rows start]; [apply In_firstn|].
  intros [].
Qed.

Lemma take_append (a b : string) (m : nat) :
  take (String.length a + m) (a ++ b) = a ++ take m b.
Proof. induction a as [|c a IH]; simpl; [reflexivity | now rewrite IH]. Qed.

(** When the file opens, the disk holds the first bytes of the records of
    the rows handed to the writer: how many is not in the hands of the
    script. *)
Lemma disk_byte_prefix (e : env) (d : option string) (n : nat) :
  open_ok e = true ->
  exists m,
    disk (snd (run (generate n) e d))
    = Some (take m (text (rows (snd (run (generate n) e d))))).
Proof.
  intros Hopen. rewrite run_generate. unfold outcome. rewrite Hopen.
  cbn [snd disk rows].
  set (handed := firstn _ (all_rows (tape e) n)).
  set (dp := drained (flushed e) 0 handed (EmptyString, EmptyString)).
  match goal with
  | |- context [take ?x (snd dp)] => set (m := x)
  end.
  exists (String.length (fst dp) + m).
  pose proof (drained_total (flushed e) handed 0 EmptyString EmptyString) as H.
  fold dp in H. cbn [append] in H.
  now rewrite <- H, take_append.
Qed.

(** Without faults the file holds the records of all the rows, and all the
    rows were handed to the writer. *)
Lemma fault_free_disk (e : env) (d : option string) (n : nat) :
  fault_free e n ->
  disk (snd (run (generate n) e d)) = Some (text (all_rows (tape e) n)) /\
  rows (snd (run (generate n) e d)) = all_rows (tape e) n.
Proof.
  intros FF. rewrite run_generate, outcome_fault_free by exact FF.
  split; reflexivity.
Qed.

Lemma row_of_run_safe (e : env) (d : option string) (n : nat) (row : list cell) :
  In row (rows (snd (run (generate n) e d))) ->
  safe_row row /\ List.length row = 5.
Proof.
  intros H. apply rows_in_all in H.
  pose proof (all_rows_safe (tape e) n) as Hall.
  rewrite Forall_forall in Hall. now apply Hall.
Qed.

(** C7.  Every row handed to the writer, the header and each data row, has
    five cells and is written as the plain join of their texts with commas,
    followed by the line terminator: no cell text holds a comma, a double
    quote, a CR or an LF, so no field is quoted or escaped, and the record
    holds exactly four commas and no double quote.  When no system call
    fails, the lines of the file are such records. *)
Theorem C7_plain_comma_join (e : env) (d : option string) (n : nat) :
  (forall row,
      In row (rows (snd (run (generate n) e d))) ->
      List.length row = 5 /\
      format_row row = join comma (map cell_text row) ++ CRLF /\
      map format_field (map cell_text row) = map cell_text row /\
      (forall c, In c row ->
                 has special (cell_text c) = false /\
                 count comma (cell_text c) = 0 /\
                 count dquote (cell_text c) = 0 /\
                 has is_eol (cell_text c) = false) /\
      count comma (format_record row) = 4 /\
      count dquote (format_record row) = 0) /\
  (forall content line,
      fault_free e n ->
      disk (snd (run (generate n) e d)) = Some content ->
      In line (splitlines content) ->
      count comma line = 4 /\
      exists row,
        In row (rows (snd (run (generate n) e d))) /\
        line = join comma (map cell_text row)).
Proof.
  assert (forall row,
             In row (rows (snd (run (generate n) e d))) ->
             format_record row = join comma (map cell_text row) /\
             count comma (format_record row) = 4 /\
             has is_eol (format_record row) = false) as Hrec.
  { intros row Hin. destruct (row_of_run_safe e d n row Hin) as [Hsafe Hlen].
    pose proof (safe_row_texts row Hsafe) as Htexts.
    rewrite format_record_plain by (trivial; lia).
    split; [reflexivity|]. split.
    - rewrite count_comma_join, length_map, Hlen by exact Htexts. reflexivity.
    - now apply no_eol_join. }
  split.
  - intros row Hin. destruct (row_of_run_safe e d n row Hin) as [Hsafe Hlen].
    pose proof (safe_row_texts row Hsafe) as Htexts.
    destruct (Hrec row Hin) as (Hplain & Hcommas & _).
    split; [exact Hlen|]. split; [unfold format_row; now rewrite Hplain|].
    split; [now apply map_format_field_safe|].
    split; [|split; [exact Hcommas|]].
    + intros c Hc. unfold safe_row in Hsafe. rewrite Forall_forall in Hsafe.
      specialize (Hsafe c Hc). repeat split.
      * now apply (all_not_has is_safe special _ is_safe_not_special).
      * now apply (all_count_0 is_safe).
      * now apply (all_count_0 is_safe).
      * now apply (all_not_has is_safe is_eol _ is_safe_not_eol).
    + rewrite Hplain. now apply no_dquote_join.
  - intros content line FF Hdisk Hline.
    destruct (fault_free_disk e d n FF) as (Hall & Hrows).
    assert (content = text (all_rows (tape e) n)) as -> by congruence.
    rewrite splitlines_text in Hline by apply all_rows_no_eol.
    apply in_map_iff in Hline as (row & <- & Hin).
    rewrite <- Hrows in Hin.
    destruct (Hrec row Hin) as (Hplain & Hcommas & _).
    split; [exact Hcommas|]. now exists row.
Qed.

Lemma C7_plain_comma_join_witness :
  count comma "Robert Brown,robert.brown2@company.com,34,40013,Engineering" = 4 /\
  exists row,
    In row (rows (snd (run (generate 3) (calm N.of_nat) None))) /\
    "Robert Brown,robert.brown2@company.com,34,40013,Engineering"
    = join comma (map cell_text row).
Proof.
  eapply (proj2 (C7_plain_comma_join (calm N.of_nat) None 3)).
  - repeat split.
  - vm_compute. reflexivity.
  - vm_compute. do 3 right. left. reflexivity.
Defined.

(** C8.  When no system call fails, the content of the file is the
    sequence of the records of the rows handed to the writer, the header and
    the [n] data rows, each followed by the line terminator CR LF; no record
    holds a CR or an LF, so each record is one line of the file and each
    line one record, and the file has as many LF as records. *)
Theorem C8_one_record_per_line
  (e : env) (d : option string) (n : nat) (content : string) :
  fault_free e n ->
  disk (snd (run (generate n) e d)) = Some content ->
  exists recs,
    recs = rows (snd (run (generate n) e d)) /\
    List.length recs = n + 1 /\
    content = fold_right (fun r rest => format_record r ++ CRLF ++ rest)
                         EmptyString recs /\
    Forall (fun r => has is_eol (format_record r) = false) recs /\
    splitlines content = map format_record recs /\
    count LF content = List.length recs /\
    List.length (splitlines content) = count LF content.
Proof.
  intros FF Hdisk.
  destruct (fault_free_disk e d n FF) as (Hall & Hrows).
  assert (content = text (all_rows (tape e) n)) as -> by congruence.
  exists (all_rows (tape e) n).
  pose proof (all_rows_no_eol (tape e) n) as Heol.
  split; [now rewrite Hrows|]. split; [rewrite length_all_rows; lia|]. split.
  { generalize (all_rows (tape e) n) as recs.
    induction recs as [|r recs IH]; simpl; [reflexivity|].
    unfold format_row. now rewrite append_assoc, IH. }
  split; [exact Heol|].
  rewrite splitlines_text, count_LF_text, length_map by exact Heol.
  repeat split.
Qed.

Lemma C8_one_record_per_line_witness :
  exists content recs,
    disk (snd (run (generate 3) (calm N.of_nat) None)) = Some content /\
    recs = rows (snd (run (generate 3) (calm N.of_nat) None)) /\
    splitlines content = map format_record recs /\
    count LF content = List.length recs.
Proof.
  destruct (disk (snd (run (generate 3) (calm N.of_nat) None)))
    as [content|] eqn:E; [|vm_compute in E; discriminate].
  assert (fault_free (calm N.of_nat) 3) as FF by (repeat split).
  destruct (C8_one_record_per_line (calm N.of_nat) None 3 content FF E)
    as (recs & H1 & _ & _ & _ & H2 & H3 & _).
  exists content, recs. auto.
Defined.

(** ** Failures *)

Lemma ok_prefix_first_fail ok (n : nat) :
  forall w k,
    k < n -> ok (w + k) = false -> (forall j, j < k -> ok (w + j) = true) ->
    ok_prefix ok w n = k.
Proof.
  induction n as [|n IH]; intros w k Hk Hfail Hbefore; [lia|].
  simpl. destruct k as [|k].
  - rewrite Nat.add_0_r in Hfail. now rewrite Hfail.
  - rewrite <- (Nat.add_0_r w) at 1. rewrite (Hbefore 0) by lia.
    f_equal. apply IH; [lia | |].
    + now replace (S w + k) with (w + S k) by lia.
    + intros j Hj. replace (S w + j) with (w + S j) by lia. apply Hbefore. lia.
Qed.

(** C9.  A run ends normally or raises [OSError], nothing else; it ends
    normally exactly when the open, the [n + 1] writes and the close all
    succeed.  A failed open leaves everything as it was.  A failed write is
    the last call the run makes on the writer and the tape: the write is not
    tried again, no later row is drawn or handed over, and [OSError] reaches
    the caller.  Whenever the file was opened the handle is closed at the
    end, also when the run raises; the handle is never left open. *)
Theorem C9_io_failure (e : env) (d : option string) (n : nat) :
  (fst (run (generate n) e d) = Ok tt
   \/ fst (run (generate n) e d) = Raise OSError) /\
  (fst (run (generate n) e d) = Ok tt <-> fault_free e n) /\
  (open_ok e = false ->
   run (generate n) e d = (Raise OSError, start d)) /\
  (open_ok e = true -> fh (snd (run (generate n) e d)) = Closed) /\
  fh (snd (run (generate n) e d)) <> Opened /\
  (forall k,
      open_ok e = true -> k <= n ->
      (forall j, j < k -> write_ok e j = true) -> write_ok e k = false ->
      fst (run (generate n) e d) = Raise OSError /\
      writes (snd (run (generate n) e d)) = S k /\
      rows (snd (run (generate n) e d)) = firstn (S k) (all_rows (tape e) n) /\
      cursor (snd (run (generate n) e d)) = 5 * k /\
      fh (snd (run (generate n) e d)) = Closed).
Proof.
  rewrite run_generate.
  split; [|split; [|split; [|split; [|split]]]].
  - unfold outcome.
    destruct (open_ok e), (close_ok e),
      (Nat.eqb (ok_prefix (write_ok e) 0 (S n)) (S n)); auto.
  - split.
    + unfold outcome, fault_free.
      destruct (open_ok e); [|discriminate].
      destruct (close_ok e); [|discriminate].
      destruct (Nat.eqb_spec (ok_prefix (write_ok e) 0 (S n)) (S n)) as [Hk|];
        [|discriminate].
      intros _. repeat split. intros k Hk'.
      apply (proj1 (ok_prefix_all _ _ _) Hk k). lia.
    + intros FF. now rewrite outcome_fault_free.
  - apply outcome_closed.
  - intros Hopen. unfold outcome. now rewrite Hopen.
  - unfold outcome. destruct (open_ok e); discriminate.
  - intros k Hopen Hk Hbefore Hfail.
    assert (ok_prefix (write_ok e) 0 (S n) = k) as Hpre
      by (apply ok_prefix_first_fail; [lia | exact Hfail | exact Hbefore]).
    unfold outcome. rewrite Hopen, Hpre. cbn [fst snd writes rows cursor fh].
    assert (Nat.eqb k (S n) = false) as -> by (apply Nat.eqb_neq; lia).
    rewrite length_firstn, length_all_rows.
    replace (Nat.min (S k) (S n)) with (S k) by lia.
    repeat split; [destruct (close_ok e); reflexivity | lia].
Qed.

Lemma C9_io_failure_witness :
  run (generate 3) {| tape := N.of_nat; open_ok := false;
                      write_ok := fun _ => true; flushed := fun _ => 0;
                      close_ok := true; close_flushed := 0 |}
      (Some "kept")
  = (Raise OSError, start (Some "kept")) /\
  fst (run (generate 3)
         {| tape := N.of_nat; open_ok := true;
            write_ok := fun k => negb (Nat.eqb k 2);
            flushed := fun _ => 100; close_ok := true;
            close_flushed := 7 |} None) = Raise OSError /\
  writes (snd (run (generate 3)
                 {| tape := N.of_nat; open_ok := true;
                    write_ok := fun k => negb (Nat.eqb k 2);
                    flushed := fun _ => 100; close_ok := true;
                    close_flushed := 7 |} None)) = 3.
Proof.
  split.
  - apply (proj1 (proj2 (proj2
             (C9_io_failure
                {| tape := N.of_nat; open_ok := false;
                   write_ok := fun _ => true; flushed := fun _ => 0;
                   close_ok := true; close_flushed := 0 |}
                (Some "kept") 3)))).
    reflexivity.
  - destruct (C9_io_failure
                {| tape := N.of_nat; open_ok := true;
                   write_ok := fun k => negb (Nat.eqb k 2);
                   flushed := fun _ => 100; close_ok := true;
                   close_flushed := 7 |}
                None 3) as (_ & _ & _ & _ & _ & H).
    destruct (H 2) as (Hr & Hw & _).
    + reflexivity.
    + lia.
    + intros j Hj. destruct j as [|[|j]]; [reflexivity | reflexivity | lia].
    + reflexivity.
    + split; assumption.
Defined.

(** ** One result per sequence of draws *)

Lemma draw_bound_at (r m : nat) :
  r < 5 ->
  draw_bound (r + 5 * m)
  = nth r [8; 8; 44; 120001; 7]%N 1%N.
Proof.
  intros Hr. unfold draw_bound.
  replace (r + 5 * m) with (r + m * 5) by lia.
  rewrite Nat.Div0.mod_add, Nat.mod_small by lia. reflexivity.
Qed.

Lemma row_at_ext (t1 t2 : nat -> N) (m i : nat) :
  (forall r, r < 5 ->
             N.modulo (t1 (r + 5 * m)) (draw_bound (r + 5 * m))
             = N.modulo (t2 (r + 5 * m)) (draw_bound (r + 5 * m))) ->
  row_at t1 (5 * m) i = row_at t2 (5 * m) i.
Proof.
  intros H.
  pose proof (H 0 ltac:(lia)) as H0. pose proof (H 1 ltac:(lia)) as H1.
  pose proof (H 2 ltac:(lia)) as H2. pose proof (H 3 ltac:(lia)) as H3.
  pose proof (H 4 ltac:(lia)) as H4.
  rewrite draw_bound_at in H0, H1, H2, H3, H4 by lia.
  cbn [nth] in H0, H1, H2, H3, H4.
  unfold row_at, pick.
  change (N.of_nat (List.length first_names)) with 8%N.
  change (N.of_nat (List.length last_names)) with 8%N.
  change (N.of_nat (List.length depts)) with 7%N.
  change (0 + 5 * m) with (5 * m) in H0.
  now rewrite H0, H1, H2, H3, H4.
Qed.

Lemma rows_from_ext (t1 t2 : nat -> N) (k : nat) :
  forall m i,
    (forall j, 5 * m <= j < 5 * (m + k) ->
               N.modulo (t1 j) (draw_bound j) = N.modulo (t2 j) (draw_bound j)) ->
    rows_from t1 (5 * m) i k = rows_from t2 (5 * m) i k.
Proof.
  induction k as [|k IH]; intros m i H; [reflexivity|].
  cbn [rows_from]. f_equal.
  - apply row_at_ext. intros r Hr. apply H. lia.
  - replace (5 + 5 * m) with (5 * S m) by lia.
    apply IH. intros j Hj. apply H. lia.
Qed.

Lemma ok_prefix_ext (ok1 ok2 : nat -> bool) (n : nat) :
  forall w,
    (forall j, w <= j < w + n -> ok1 j = ok2 j) ->
    ok_prefix ok1 w n = ok_prefix ok2 w n.
Proof.
  induction n as [|n IH]; intros w H; [reflexivity|].
  simpl. rewrite <- (H w) by lia.
  destruct (ok1 w); [|reflexivity].
  f_equal. apply IH. intros j Hj. apply H. lia.
Qed.

(** C10.  Two runs of the same count in which no system call fails and the
    [5 * n] calls of the random primitives return the same values return the
    same result and leave the same state: the same bytes on disk, the same
    rows in the same order.  What was on disk before and the tape beyond the
    values drawn play no part.  Such a run reads exactly [5 * n] tape cells
    and writes [n] data rows, whatever the tape. *)
Theorem C10_bytes_determined_by_draws
  (e1 e2 : env) (d1 d2 : option string) (n : nat) :
  fault_free e1 n -> fault_free e2 n ->
  (forall k, k < 5 * n -> draw e1 k = draw e2 k) ->
  run (generate n) e1 d1 = run (generate n) e2 d2 /\
  disk (snd (run (generate n) e1 d1)) = disk (snd (run (generate n) e2 d2)) /\
  cursor (snd (run (generate n) e1 d1)) = 5 * n /\
  List.length (data_rows (snd (run (generate n) e1 d1))) = n /\
  disk (snd (run (generate n) e1 d1)) = Some (text (all_rows (tape e2) n)).
Proof.
  intros FF1 FF2 Hdraw.
  assert (all_rows (tape e1) n = all_rows (tape e2) n) as Hrows.
  { unfold all_rows. f_equal.
    apply (rows_from_ext (tape e1) (tape e2) n 0 0).
    intros j Hj. apply Hdraw. lia. }
  assert (run (generate n) e1 d1 = run (generate n) e2 d2) as Hrun.
  { rewrite !run_generate, !outcome_fault_free by assumption.
    now rewrite Hrows. }
  split; [exact Hrun|]. split; [now rewrite Hrun|].
  rewrite run_generate, outcome_fault_free by exact FF1.
  cbn [snd cursor disk]. split; [reflexivity|]. split.
  - unfold data_rows, all_rows. cbn [rows tl]. apply length_rows_from.
  - now rewrite Hrows.
Qed.

Lemma C10_bytes_determined_by_draws_witness :
  run (generate 1) (calm N.of_nat) None
  = run (generate 1)
      {| tape := fun k => (N.of_nat k + 295682464)%N; open_ok := true;
         write_ok := fun _ => true; flushed := fun k => 10 * k;
         close_ok := true; close_flushed := 3 |}
      (Some "old").
Proof.
  refine (proj1 (C10_bytes_determined_by_draws
                   (calm N.of_nat)
                   {| tape := fun k => (N.of_nat k + 295682464)%N;
                      open_ok := true;
                      write_ok := fun _ => true; flushed := fun k => 10 * k;
                      close_ok := true; close_flushed := 3 |}
                   None (Some "old") 1 _ _ _)).
  - repeat split.
  - repeat split.
  - intros k Hk.
    destruct k as [|[|[|[|[|k]]]]]; [reflexivity .. | lia].
Defined.

(** ** Further properties of the script *)

(** *** Draws and writes per row *)

Lemma length_tl {A} (l : list A) : List.length (tl l) = List.length l - 1.
Proof. destruct l; simpl; lia. Qed.

(** In every run, failing or not, each row handed to the writer costs one
    [write] call and each data row five draws, made before its write; at
    most [n + 1] rows are handed over. *)
Theorem run_accounting (e : env) (d : option string) (n : nat) :
  writes (snd (run (generate n) e d))
  = List.length (rows (snd (run (generate n) e d))) /\
  cursor (snd (run (generate n) e d))
  = 5 * List.length (data_rows (snd (run (generate n) e d))) /\
  List.length (rows (snd (run (generate n) e d))) <= n + 1.
Proof.
  rewrite run_generate. unfold outcome, data_rows.
  destruct (open_ok e); cbn [snd writes cursor rows start].
  - rewrite length_tl, length_firstn, length_all_rows.
    repeat split; lia.
  - simpl. repeat split; lia.
Qed.

(** *** Reading a record back *)

Lemma split_from_join (sep : ascii) (texts : list string) :
  forall cur f,
    Forall (fun s => count sep s = 0) (f :: texts) ->
    split_from sep cur (join sep (f :: texts)) = (cur ++ f) :: texts.
Proof.
  induction texts as [|g rest IH]; intros cur f H.
  - apply Forall_inv in H. now apply split_from_plain.
  - rewrite join_cons. pose proof (Forall_inv H) as Hf.
    apply Forall_inv_tail in H.
    rewrite split_from_sep by exact Hf.
    f_equal. now rewrite IH.
Qed.

Lemma safe_texts_no_comma (row : list cell) :
  safe_row row -> Forall (fun s => count comma s = 0) (map cell_text row).
Proof.
  intros H. apply safe_row_texts in H.
  eapply Forall_impl; [|exact H].
  intros s Hs. now apply (all_count_0 is_safe).
Qed.

(** Splitting a written record at its commas gives back the texts of the
    five cells of the row, in order: the file can be read without a CSV
    parser. *)
Theorem record_split_round_trip
  (e : env) (d : option string) (n : nat) (row : list cell) :
  In row (rows (snd (run (generate n) e d))) ->
  split comma (format_record row) = map cell_text row /\
  List.length (split comma (format_record row)) = 5.
Proof.
  intros Hin. destruct (row_of_run_safe e d n row Hin) as [Hsafe Hlen].
  assert (split comma (format_record row) = map cell_text row) as Hsplit.
  { rewrite format_record_plain by (trivial; lia).
    pose proof (safe_texts_no_comma row Hsafe) as Hno.
    destruct (map cell_text row) as [|f texts] eqn:E.
    - destruct row; [simpl in Hlen; lia | discriminate].
    - unfold split. now rewrite split_from_join. }
  split; [exact Hsplit|]. now rewrite Hsplit, length_map.
Qed.

Lemma record_split_round_trip_witness :
  split comma
    (format_record [CStr "Robert Brown"; CStr "robert.brown2@company.com";
                    CInt 34; CInt 40013; CStr "Engineering"])
  = map cell_text [CStr "Robert Brown"; CStr "robert.brown2@company.com";
                   CInt 34; CInt 40013; CStr "Engineering"].
Proof.
  refine (proj1 (record_split_round_trip (calm N.of_nat) None 3 _ _)).
  vm_compute. do 3 right. left. reflexivity.
Defined.

(** *** A row depends on its own five draws only *)

(** The data row at index [i] is the same in any two runs, of any counts,
    with any faults and any earlier file, in which the five draws numbered
    [5 * i] to [5 * i + 4] return the same values. *)
Theorem row_depends_on_own_draws
  (e1 e2 : env) (d1 d2 : option string) (n1 n2 i : nat) (r1 r2 : list cell) :
  nth_error (data_rows (snd (run (generate n1) e1 d1))) i = Some r1 ->
  nth_error (data_rows (snd (run (generate n2) e2 d2))) i = Some r2 ->
  (forall r, r < 5 -> draw e1 (r + 5 * i) = draw e2 (r + 5 * i)) ->
  r1 = r2.
Proof.
  intros H1 H2 Hdraw.
  apply data_row_at in H1 as (_ & _ & ->).
  apply data_row_at in H2 as (_ & _ & ->).
  apply row_at_ext. exact Hdraw.
Qed.

Lemma row_depends_on_own_draws_witness :
  nth_error
    (data_rows (snd (run (generate 1) (calm (tape_of [1; 1; 2; 3; 4]%N)) None)))
    0
  = nth_error
      (data_rows
         (snd (run (generate 4)
                 {| tape := tape_of [9; 17; 46; 120004; 11; 5; 5; 5; 5; 5]%N;
                    open_ok := true;
                    write_ok := fun k => Nat.eqb k 0 || Nat.eqb k 1;
                    flushed := fun _ => 0;
                    close_ok := false; close_flushed := 40 |}
                 (Some "old"))))
      0.
Proof.
  destruct (nth_error (data_rows (snd (run (generate 1) _ None))) 0)
    as [r1|] eqn:E1; [|vm_compute in E1; discriminate].
  destruct (nth_error (data_rows (snd (run (generate 4) _ (Some "old")))) 0)
    as [r2|] eqn:E2; [|vm_compute in E2; discriminate].
  f_equal. apply (row_depends_on_own_draws _ _ _ _ _ _ _ _ _ E1 E2).
  intros r Hr.
  destruct r as [|[|[|[|[|r]]]]]; [reflexivity .. | lia].
Defined.

(** *** A larger count appends rows *)

Lemma rows_from_add (t : nat -> N) (a b : nat) :
  forall c i,
    rows_from t c i (a + b)
    = (rows_from t c i a ++ rows_from t (5 * a + c) (a + i) b)%list.
Proof.
  induction a as [|a IH]; intros c i; [reflexivity|].
  cbn [Nat.add rows_from]. rewrite IH, <- app_comm_cons. do 3 f_equal; lia.
Qed.

Lemma text_append (a b : list (list cell)) :
  text (a ++ b)%list = text a ++ text b.
Proof.
  induction a as [|r a IH]; simpl; [reflexivity|].
  now rewrite IH, append_assoc.
Qed.

Lemma startswith_append (a b : string) : startswith (a ++ b) a = true.
Proof.
  induction a as [|c a IH]; simpl; [reflexivity|].
  now rewrite Ascii.eqb_refl, IH.
Qed.

(** On one tape, the file of a run of count [n + m] is the file of the run
    of count [n] followed by the records of the rows [n] to [n + m - 1]:
    raising the count leaves the first rows as they were. *)
Theorem larger_count_appends (e : env) (d : option string) (n m : nat) :
  fault_free e (n + m) ->
  exists small large,
    disk (snd (run (generate n) e d)) = Some small /\
    disk (snd (run (generate (n + m)) e d)) = Some large /\
    large = small ++ text (rows_from (tape e) (5 * n) n m) /\
    startswith large small = true /\
    firstn (n + 1) (splitlines large) = splitlines small.
Proof.
  intros FF.
  assert (fault_free e n) as FFn.
  { destruct FF as (Ho & Hw & Hc). repeat split; trivial.
    intros k Hk. apply Hw. lia. }
  rewrite !run_generate, (outcome_fault_free e n d FFn),
    (outcome_fault_free e (n + m) d FF).
  cbn [snd disk].
  assert (all_rows (tape e) (n + m)
          = (all_rows (tape e) n ++ rows_from (tape e) (5 * n) n m)%list)
    as Hrows.
  { unfold all_rows. rewrite rows_from_add, <- app_comm_cons.
    do 3 f_equal; lia. }
  exists (text (all_rows (tape e) n)), (text (all_rows (tape e) (n + m))).
  split; [reflexivity|]. split; [reflexivity|].
  assert (text (all_rows (tape e) (n + m))
          = text (all_rows (tape e) n)
            ++ text (rows_from (tape e) (5 * n) n m)) as Htext
    by now rewrite Hrows, text_append.
  split; [exact Htext|]. split.
  - rewrite Htext. apply startswith_append.
  - rewrite !splitlines_text by apply all_rows_no_eol.
    rewrite Hrows, map_app, firstn_app, length_map, length_all_rows.
    replace (n + 1 - S n) with 0 by lia.
    rewrite firstn_0, app_nil_r.
    apply firstn_all2. rewrite length_map, length_all_rows. lia.
Qed.

Lemma larger_count_appends_witness :
  exists small large,
    disk (snd (run (generate 1) (calm N.of_nat) None)) = Some small /\
    disk (snd (run (generate (1 + 2)) (calm N.of_nat) None)) = Some large /\
    large = small ++ text (rows_from N.of_nat (5 * 1) 1 2) /\
    startswith large small = true /\
    firstn (1 + 1) (splitlines large) = splitlines small.
Proof.
  apply (larger_count_appends (calm N.of_nat) None 1 2).
  repeat split.
Defined.

(** *** The email is a key *)

Lemma lower_table_inj (table : list string) :
  forallb (fun a => forallb (fun b => implb (String.eqb (lower a) (lower b))
                                            (String.eqb a b)) table) table
  = true ->
  forall a b, In a table -> In b table -> lower a = lower b -> a = b.
Proof.
  intros H a b Ha Hb Hab.
  rewrite forallb_forall in H. specialize (H a Ha).
  rewrite forallb_forall in H. specialize (H b Hb).
  rewrite Hab, String.eqb_refl in H. now apply String.eqb_eq.
Qed.

Lemma lower_names_dot (s : string) :
  In s first_names \/ In s last_names -> count dot (lower s) = 0.
Proof.
  intros H. apply (all_count_0 is_lower); [reflexivity|].
  now apply lower_names.
Qed.

(** For names of the tables the address determines the index and both
    names. *)
Lemma email_of_inj (f l f' l' : string) (i j : nat) :
  In f first_names -> In l last_names ->
  In f' first_names -> In l' last_names ->
  email_of f l i = email_of f' l' j -> f = f' /\ l = l' /\ i = j.
Proof.
  intros Hf Hl Hf' Hl' H.
  pose proof (email_of_index_inj f l f' l' i j Hf Hl Hf' Hl' H) as <-.
  unfold email_of in H.
  replace (lower f ++ "." ++ lower l ++ str_int (Z.of_nat i) ++ "@company.com")
    with ((lower f ++ String dot (lower l))
          ++ str_int (Z.of_nat i) ++ "@company.com") in H
    by now rewrite !append_assoc.
  replace (lower f' ++ "." ++ lower l' ++ str_int (Z.of_nat i) ++ "@company.com")
    with ((lower f' ++ String dot (lower l'))
          ++ str_int (Z.of_nat i) ++ "@company.com") in H
    by now rewrite !append_assoc.
  apply append_inv_tail in H.
  apply (f_equal (split dot)) in H.
  rewrite !split_two in H by (apply lower_names_dot; tauto).
  injection H as Hlf Hll.
  repeat split.
  - now apply (lower_table_inj first_names eq_refl).
  - now apply (lower_table_inj last_names eq_refl).
Qed.

(** Across all runs, two data rows with the same email have the same index
    and the same name: the email identifies the record. *)
Theorem email_identifies_record
  (e1 e2 : env) (d1 d2 : option string) (n1 n2 i j : nat) (ri rj : list cell) :
  nth_error (data_rows (snd (run (generate n1) e1 d1))) i = Some ri ->
  nth_error (data_rows (snd (run (generate n2) e2 d2))) j = Some rj ->
  field 1 ri = field 1 rj ->
  i = j /\ field 0 ri = field 0 rj.
Proof.
  intros Hi Hj Heq.
  apply data_row_employee in Hi, Hj.
  destruct Hi as (f & l & a & sal & dp & Hf & Hl & _ & _ & _ & ->).
  destruct Hj as (f' & l' & a' & sal' & dp' & Hf' & Hl' & _ & _ & _ & ->).
  unfold field in *. cbn [nth_error] in *. injection Heq as Heq.
  destruct (email_of_inj f l f' l' i j Hf Hl Hf' Hl' Heq) as (-> & -> & ->).
  split; reflexivity.
Qed.

Lemma email_identifies_record_witness :
  2 = 2 /\
  field 0 [CStr "Robert Brown"; CStr "robert.brown2@company.com";
           CInt 34; CInt 40013; CStr "Engineering"]
  = field 0 [CStr "Robert Brown"; CStr "robert.brown2@company.com";
             CInt 60; CInt 40000; CStr "Legal"].
Proof.
  refine (email_identifies_record
            (calm N.of_nat) (calm (tape_of [0; 0; 0; 0; 0; 0; 0; 0; 0; 0;
                                            2; 3; 38; 0; 5]%N))
            None None 3 5 2 2 _ _ _ _ _).
  - vm_compute. reflexivity.
  - vm_compute. reflexivity.
  - reflexivity.
Defined.

(** *** The email follows from the name *)

Lemma lower_append (a b : string) : lower (a ++ b) = lower a ++ lower b.
Proof. induction a as [|c a IH]; simpl; [reflexivity | now rewrite IH]. Qed.

Lemma replace_char_absent (old new : ascii) (s : string) :
  count old s = 0 -> replace_char old new s = s.
Proof.
  induction s as [|c s IH]; intros H; [reflexivity|].
  apply count_cons_0 in H as [Hc Hs]. simpl. now rewrite Hc, IH.
Qed.

Lemma replace_char_append (old new : ascii) (a b : string) :
  replace_char old new (a ++ b) = replace_char old new a ++ replace_char old new b.
Proof. induction a as [|c a IH]; simpl; [reflexivity | now rewrite IH]. Qed.

(** In every data row the email is the name with its space turned into a
    dot, lower-cased, followed by the index and the domain. *)
Theorem email_follows_from_name
  (e : env) (d : option string) (n i : nat) (row : list cell) :
  nth_error (data_rows (snd (run (generate n) e d))) i = Some row ->
  exists name email,
    field 0 row = Some (CStr name) /\
    field 1 row = Some (CStr email) /\
    email = lower (replace_char space dot name)
            ++ str_int (Z.of_nat i) ++ "@company.com".
Proof.
  intros H. apply data_row_employee in H.
  destruct H as (f & l & a & sal & dp & Hf & Hl & _ & _ & _ & ->).
  eexists _, _. split; [reflexivity|]. split; [reflexivity|].
  change (f ++ " " ++ l) with (f ++ String space l).
  rewrite replace_char_append. cbn [replace_char].
  rewrite Ascii.eqb_refl.
  rewrite !replace_char_absent by (apply names_no_space; tauto).
  rewrite lower_append. cbn [lower].
  change (lower_char dot) with dot.
  now rewrite !append_assoc.
Qed.

Lemma email_follows_from_name_witness :
  exists name email,
    field 0 [CStr "Robert Brown"; CStr "robert.brown2@company.com";
             CInt 34; CInt 40013; CStr "Engineering"] = Some (CStr name) /\
    field 1 [CStr "Robert Brown"; CStr "robert.brown2@company.com";
             CInt 34; CInt 40013; CStr "Engineering"] = Some (CStr email) /\
    email = lower (replace_char space dot name)
            ++ str_int (Z.of_nat 2) ++ "@company.com".
Proof.
  apply (email_follows_from_name (calm N.of_nat) None 3 2).
  vm_compute. reflexivity.
Defined.

(** *** No line occurs twice *)

Lemma rows_from_employee_bounded (t : nat -> N) (k : nat) :
  forall c i row,
    In row (rows_from t c i k) -> exists j, i <= j < i + k /\ employee_row j row.
Proof.
  induction k as [|k IH]; intros c i row; simpl; [tauto|].
  intros [<- | H].
  - exists i. split; [lia | apply row_at_employee].
  - apply IH in H as (j & Hj & Hrow). exists j. split; [lia | exact Hrow].
Qed.

Lemma safe_record_split (row : list cell) :
  safe_row row -> 2 <= List.length row ->
  split comma (format_record row) = map cell_text row.
Proof.
  intros Hsafe Hlen. rewrite format_record_plain by trivial.
  pose proof (safe_texts_no_comma row Hsafe) as Hno.
  destruct (map cell_text row) as [|f texts] eqn:E.
  - destruct row; [simpl in Hlen; lia | discriminate].
  - unfold split. now rewrite split_from_join.
Qed.

(** Two data rows with the same record have the same index. *)
Lemma employee_record_index (i j : nat) (ri rj : list cell) :
  employee_row i ri -> employee_row j rj ->
  format_record ri = format_record rj -> i = j.
Proof.
  intros Hi Hj Heq.
  pose proof (employee_row_safe i ri Hi) as Si.
  pose proof (employee_row_safe j rj Hj) as Sj.
  destruct Hi as (f & l & a & sal & dp & Hf & Hl & _ & _ & _ & ->).
  destruct Hj as (f' & l' & a' & sal' & dp' & Hf' & Hl' & _ & _ & _ & ->).
  apply (f_equal (split comma)) in Heq.
  rewrite !safe_record_split in Heq by (trivial; simpl; lia).
  cbn [map cell_text] in Heq. injection Heq as _ Hemail _ _ _.
  now apply (email_of_index_inj f l f' l').
Qed.

Lemma rows_from_records_NoDup (t : nat -> N) (k : nat) :
  forall c i, NoDup (map format_record (rows_from t c i k)).
Proof.
  induction k as [|k IH]; intros c i; simpl; constructor; [|apply IH].
  intros Hin. apply in_map_iff in Hin as (row & Hrec & Hin).
  apply rows_from_employee_bounded in Hin as (j & Hj & Hrow).
  pose proof (employee_record_index j i row (row_at t c i) Hrow
                (row_at_employee t c i) Hrec).
  lia.
Qed.

Lemma all_rows_records_NoDup (t : nat -> N) (n : nat) :
  NoDup (map format_record (all_rows t n)).
Proof.
  unfold all_rows. cbn [map]. constructor; [|apply rows_from_records_NoDup].
  intros Hin. apply in_map_iff in Hin as (row & Hrec & Hin).
  apply rows_from_employee in Hin as (j & Hj).
  apply employee_record_at_sign in Hj.
  rewrite Hrec in Hj. vm_compute in Hj. lia.
Qed.

Lemma NoDup_firstn {A} (k : nat) (l : list A) : NoDup l -> NoDup (firstn k l).
Proof.
  intros H. rewrite <- (firstn_skipn k l) in H.
  now apply NoDup_app_remove_r in H.
Qed.

(** When no system call fails, the lines of the file are pairwise
    different, the header line included: no record is written twice. *)
Theorem file_lines_distinct
  (e : env) (d : option string) (n : nat) (content : string) :
  fault_free e n ->
  disk (snd (run (generate n) e d)) = Some content ->
  NoDup (splitlines content).
Proof.
  intros FF Hdisk.
  destruct (fault_free_disk e d n FF) as (Hall & _).
  assert (content = text (all_rows (tape e) n)) as -> by congruence.
  rewrite splitlines_text by apply all_rows_no_eol.
  apply all_rows_records_NoDup.
Qed.

Lemma file_lines_distinct_witness :
  exists content,
    disk (snd (run (generate 3) (calm N.of_nat) None)) = Some content /\
    NoDup (splitlines content).
Proof.
  destruct (disk (snd (run (generate 3) (calm N.of_nat) None)))
    as [content|] eqn:E; [|vm_compute in E; discriminate].
  exists content. split; [reflexivity|].
  assert (fault_free (calm N.of_nat) 3) as FF by (repeat split).
  exact (file_lines_distinct (calm N.of_nat) None 3 content FF E).
Defined.

(** *** The characters of the file *)

Lemma is_safe_file_char c : is_safe c = true -> is_file_char c = true.
Proof. unfold is_file_char. now intros ->. Qed.

Lemma is_file_char_ascii c : is_file_char c = true -> is_ascii c = true.
Proof.
  destruct c as [[] [] [] [] [] [] [] []]; vm_compute; congruence.
Qed.

Lemma all_join (p : ascii -> bool) (sep : ascii) (texts : list string) :
  p sep = true -> Forall (fun s => all p s = true) texts ->
  all p (join sep texts) = true.
Proof.
  intros Hsep. induction 1 as [|s texts Hs Hrest IH]; [reflexivity|].
  destruct texts as [|g rest]; [exact Hs|].
  rewrite join_cons, all_append, Hs. cbn [all]. now rewrite Hsep, IH.
Qed.

Lemma all_text (p : ascii -> bool) (rws : list (list cell)) :
  Forall (fun r => all p (format_row r) = true) rws -> all p (text rws) = true.
Proof.
  induction 1 as [|r rws Hr _ IH]; [reflexivity|].
  cbn [text]. now rewrite all_append, Hr, IH.
Qed.

Lemma all_take (p : ascii -> bool) (m : nat) (s : string) :
  all p s = true -> all p (take m s) = true.
Proof.
  revert s. induction m as [|m IH]; intros [|c s]; simpl; try reflexivity.
  intros H. apply andb_true_iff in H as [Hc Hs]. now rewrite Hc, IH.
Qed.

(** Whenever the file opens, and whatever fails afterwards, the file left
    on disk holds only letters, digits, spaces, dots, at signs, commas, CR
    and LF: seven-bit characters, so its bytes do not depend on the encoding
    the file was opened with, and no double quote. *)
Theorem file_characters
  (e : env) (d : option string) (n : nat) (content : string) :
  open_ok e = true ->
  disk (snd (run (generate n) e d)) = Some content ->
  all is_file_char content = true /\
  all is_ascii content = true /\
  count dquote content = 0.
Proof.
  intros Hopen Hdisk.
  destruct (disk_byte_prefix e d n Hopen) as (m & Hm).
  assert (content = take m (text (rows (snd (run (generate n) e d))))) as ->
    by congruence.
  assert (all is_file_char
            (take m (text (rows (snd (run (generate n) e d))))) = true) as H.
  { apply all_take, all_text, Forall_forall. intros r Hin.
    destruct (row_of_run_safe e d n r Hin) as [Hsafe Hlen].
    unfold format_row.
    rewrite all_append, format_record_plain by (trivial; lia).
    rewrite all_join; [reflexivity | reflexivity |].
    eapply Forall_impl; [|apply safe_row_texts, Hsafe].
    intros s. apply all_weaken, is_safe_file_char. }
  split; [exact H|]. split.
  - revert H. apply all_weaken, is_file_char_ascii.
  - revert H. now apply all_count_0.
Qed.

Lemma file_characters_witness :
  exists content,
    disk (snd (run (generate 3) (third_write_fails N.of_nat) None))
    = Some content /\
    all is_file_char content = true /\
    all is_ascii content = true /\
    count dquote content = 0.
Proof.
  destruct (disk (snd (run (generate 3) (third_write_fails N.of_nat) None)))
    as [content|] eqn:E; [|vm_compute in E; discriminate].
  exists content. split; [reflexivity|].
  exact (file_characters (third_write_fails N.of_nat) None 3 content eq_refl E).
Defined.

(** *** What a failed run leaves on disk *)

Lemma take_take_append (m : nat) (a b : string) :
  exists m', take m a = take m' (a ++ b).
Proof.
  exists (Nat.min m (String.length a)).
  revert m. induction a as [|c a IH]; intros [|m]; simpl; try reflexivity.
  now rewrite IH.
Qed.

Lemma startswith_take (m : nat) (s : string) : startswith s (take m s) = true.
Proof.
  revert s. induction m as [|m IH]; intros [|c s]; simpl; try reflexivity.
  now rewrite Ascii.eqb_refl, IH.
Qed.

Lemma firstn_split {A} (k : nat) (l : list A) :
  exists rest, l = (firstn k l ++ rest)%list.
Proof. exists (skipn k l). now rewrite firstn_skipn. Qed.

(** Whenever the file opens, and whatever fails afterwards, the file left
    on disk is the beginning, cut at some byte, of the file a run without
    faults leaves on the same tape: bytes reach the disk in order, none is
    changed and none comes twice, but the last record may be cut short. *)
Theorem failed_run_leaves_a_beginning
  (e : env) (d : option string) (n : nat) (content : string) :
  open_ok e = true ->
  disk (snd (run (generate n) e d)) = Some content ->
  exists m,
    content = take m (text (all_rows (tape e) n)) /\
    startswith (text (all_rows (tape e) n)) content = true /\
    (fault_free e n -> content = text (all_rows (tape e) n)).
Proof.
  intros Hopen Hdisk.
  destruct (disk_byte_prefix e d n Hopen) as (m & Hm).
  assert (content = take m (text (rows (snd (run (generate n) e d))))) as Hc
    by congruence.
  assert (exists rest,
             all_rows (tape e) n
             = (rows (snd (run (generate n) e d)) ++ rest)%list) as (rest & Hrest).
  { rewrite run_generate.
    destruct (outcome_open e n d Hopen) as (k & _ & _ & Hrows & _).
    rewrite Hrows. apply firstn_split. }
  destruct (take_take_append m (text (rows (snd (run (generate n) e d))))
              (text rest)) as (m' & Hm').
  rewrite <- text_append, <- Hrest in Hm'.
  exists m'. split; [congruence|]. split.
  - rewrite Hc, Hm'. apply startswith_take.
  - intros FF. destruct (fault_free_disk e d n FF) as (Hall & _). congruence.
Qed.

Lemma failed_run_leaves_a_beginning_witness :
  exists content m,
    disk (snd (run (generate 3) (third_write_fails N.of_nat) None))
    = Some content /\
    content = take m (text (all_rows N.of_nat 3)).
Proof.
  destruct (disk (snd (run (generate 3) (third_write_fails N.of_nat) None)))
    as [content|] eqn:E; [|vm_compute in E; discriminate].
  destruct (failed_run_leaves_a_beginning (third_write_fails N.of_nat) None 3
              content eq_refl E)
    as (m & Hm & _).
  exists content, m. split; [reflexivity | exact Hm].
Defined.
